(** * Geometry and range resolution of the round slider

    Shallow embedding of [src/core/domain/slider-provider.ts].

    JavaScript numbers are modelled by [num]: an exact rational, or one of
    the three non-finite IEEE values.  Rounding of finite results and the
    sign of zero are not modelled; the special values follow IEEE 754 as
    ECMAScript applies it.  Where the rounding decides a property, the
    function is read a second time on binary64 numbers ([Binary64]), and
    the properties kept are those that hold on both readings. *)

From Stdlib Require Import QArith Qround Qminmax Qabs ZArith List String Bool Lia Lqa.
From Stdlib Require DecimalString.
From Stdlib Require Floats.
From Stdlib Require Import Permutation.
Import ListNotations.

Local Open Scope Q_scope.

(** ** Numbers *)

Inductive num : Type :=
| NaN
| NegInf
| Fin (q : Q)
| PosInf.

Declare Scope num_scope.
Delimit Scope num_scope with num.
Bind Scope num_scope with num.

Definition ofZ (z : Z) : num := Fin (inject_Z z).

Definition isFinite (a : num) : bool :=
  match a with Fin _ => true | _ => false end.

Definition isNaN (a : num) : bool :=
  match a with NaN => true | _ => false end.

(** Unary minus. *)
Definition neg (a : num) : num :=
  match a with
  | NaN => NaN
  | NegInf => PosInf
  | Fin q => Fin (- q)
  | PosInf => NegInf
  end.

(** [a + b]. *)
Definition add (a b : num) : num :=
  match a, b with
  | NaN, _ | _, NaN => NaN
  | PosInf, NegInf | NegInf, PosInf => NaN
  | PosInf, _ | _, PosInf => PosInf
  | NegInf, _ | _, NegInf => NegInf
  | Fin p, Fin q => Fin (p + q)
  end.

(** [a - b]. *)
Definition sub (a b : num) : num := add a (neg b).

(** Sign of a number: [Lt] below zero, [Gt] above, [Eq] for zero and NaN. *)
Definition sign (a : num) : comparison :=
  match a with
  | NaN => Eq
  | NegInf => Lt
  | Fin q => q ?= 0
  | PosInf => Gt
  end.

(** The infinity of the sign of a product of two numbers of these signs;
    NaN when one of them is zero. *)
Definition infinityOfSigns (sa sb : comparison) : num :=
  match sa, sb with
  | Eq, _ | _, Eq => NaN
  | Lt, Lt | Gt, Gt => PosInf
  | Lt, Gt | Gt, Lt => NegInf
  end.

(** [a * b]: an infinity times zero is NaN. *)
Definition mul (a b : num) : num :=
  match a, b with
  | NaN, _ | _, NaN => NaN
  | Fin p, Fin q => Fin (p * q)
  | _, _ => infinityOfSigns (sign a) (sign b)
  end.

(** [a / b]: a non-zero number over zero is an infinity (the zero taken
    positive), zero over zero and an infinity over an infinity are NaN. *)
Definition div (a b : num) : num :=
  match a, b with
  | NaN, _ | _, NaN => NaN
  | Fin p, Fin q =>
      if Qeq_bool q 0 then infinityOfSigns (sign a) Gt else Fin (p / q)
  | Fin _, _ => Fin 0
  | _, Fin q =>
      if Qeq_bool q 0 then a else infinityOfSigns (sign a) (sign b)
  | _, _ => NaN
  end.

(** [a < b]; a comparison with NaN is false. *)
Definition ltb (a b : num) : bool :=
  match a, b with
  | NaN, _ | _, NaN => false
  | _, NegInf => false
  | NegInf, _ => true
  | PosInf, _ => false
  | _, PosInf => true
  | Fin p, Fin q => match p ?= q with Lt => true | _ => false end
  end.

(** [a <= b]. *)
Definition leb (a b : num) : bool :=
  match a, b with
  | NaN, _ | _, NaN => false
  | NegInf, _ => true
  | _, NegInf => false
  | _, PosInf => true
  | PosInf, _ => false
  | Fin p, Fin q => match p ?= q with Gt => false | _ => true end
  end.

(** [a > b]. *)
Definition gtb (a b : num) : bool := ltb b a.

(** [Math.abs]. *)
Definition Math_abs (a : num) : num :=
  match a with
  | NaN => NaN
  | Fin q => Fin (Qabs q)
  | _ => PosInf
  end.

(** [Math.max] of two arguments: NaN as soon as one of them is. *)
Definition Math_max (a b : num) : num :=
  match a, b with
  | NaN, _ | _, NaN => NaN
  | PosInf, _ | _, PosInf => PosInf
  | NegInf, c | c, NegInf => c
  | Fin p, Fin q => Fin (Qmax p q)
  end.

(** [Math.min] of two arguments. *)
Definition Math_min (a b : num) : num :=
  match a, b with
  | NaN, _ | _, NaN => NaN
  | NegInf, _ | _, NegInf => NegInf
  | PosInf, c | c, PosInf => c
  | Fin p, Fin q => Fin (Qmin p q)
  end.

(** Numeric equality of two numbers, as [===] decides it on numbers. *)
Definition num_eqb (a b : num) : bool :=
  match a, b with
  | NegInf, NegInf | PosInf, PosInf => true
  | Fin p, Fin q => Qeq_bool p q
  | _, _ => false
  end.

(** Propositional readings; [num_eq] is false on NaN, like [===]. *)
Definition num_le (a b : num) : Prop := leb a b = true.
Definition num_lt (a b : num) : Prop := ltb a b = true.
Definition num_eq (a b : num) : Prop := num_eqb a b = true.

Infix "+" := add : num_scope.
Infix "-" := sub : num_scope.
Infix "*" := mul : num_scope.
Infix "/" := div : num_scope.
Infix "<=?" := leb : num_scope.
Infix "<?" := ltb : num_scope.
Infix ">?" := gtb : num_scope.
Infix "<=" := num_le : num_scope.
Infix "<" := num_lt : num_scope.
Infix "==" := num_eq : num_scope.

Coercion ofZ : Z >-> num.

(** A pair of numbers: a point, a pair of radii, or a size. *)
Definition Vector2 : Type := (num * num)%type.

(** ** Data model ([src/core/interfaces.ts]) *)

(** [number | string | undefined | null]: what [min] and [max] may hold. *)
Inductive value : Type :=
| VNum (n : num)
| VStr (s : string)
| VUndefined
| VNull.

(** An item of [TData]: [string | number]. *)
Inductive TDataItem : Type :=
| DNum (n : num)
| DStr (s : string).

Definition TData : Type := option (list TDataItem).

(** [TStep]: a function of value and percent, a number, undefined or null. *)
Inductive TStep : Type :=
| SFun (f : TDataItem -> num -> num)
| SNum (n : num)
| SUndefined
| SNull.

(** [IStatePointer]; the optional [pointerSVG] node takes no part in the
    geometry and is left out. *)
Record IStatePointer : Type := mkStatePointer {
  pointerRadii : Vector2;
  percent : num;
  id : string;
  index : num;
  bgColor : string;
  disabled : bool;
  keyboardDisabled : bool;
  mousewheelDisabled : bool
}.

(** The rectangle [getBoundingClientRect] answers, and the element that
    answers it. *)
Record DOMRect : Type := mkDOMRect {
  left : num;
  top : num
}.

Record SVGSVGElement : Type := mkSVG {
  getBoundingClientRect : DOMRect
}.

(** What [getEllipseSegment] returns. *)
Record EllipseSegment : Type := mkEllipseSegment {
  sliderStartPoint : Vector2;
  sliderEndPoint : Vector2;
  largeArcFlag : Z
}.

(** ** Helpers of the repository and of mz-math that are not under src *)

Local Open Scope num_scope.

(** Modelled from the spec: mz-math's [v2Sub], the vector from the second
    point to the first (4.3, step 2). *)
Definition v2Sub (v1 v2 : Vector2) : Vector2 :=
  (fst v1 - fst v2, snd v1 - snd v2).

(** Modelled from the spec: mz-math's [getAnglesSub], the minimal absolute
    angular separation accounting for wraparound,
    [min(|a-b|, 360-|a-b|)] (4.1). *)
Definition getAnglesSub (angleDegrees1 angleDegrees2 : num) : num :=
  Math_min (Math_abs (angleDegrees1 - angleDegrees2))
           (360%Z - Math_abs (angleDegrees1 - angleDegrees2)).

(** Modelled from the spec: [isAngleInArc] of [./angles-provider], whether
    the angle lies in the arc from start to end traversed in the increasing
    direction, wrapping past 360 when the end is below the start (4.1). *)
Definition isAngleInArc (startAngleDeg endAngleDeg currentDegrees : num) : bool :=
  if endAngleDeg <? startAngleDeg
  then (startAngleDeg <=? currentDegrees) || (currentDegrees <=? endAngleDeg)
  else (startAngleDeg <=? currentDegrees) && (currentDegrees <=? endAngleDeg).

(** [findIndex] of an array: the first position whose item passes the
    test, [-1] when none does. *)
Fixpoint findIndexFrom {A : Type} (p : A -> bool) (l : list A) (i : Z) : Z :=
  match l with
  | [] => (-1)%Z
  | x :: r => if p x then i else findIndexFrom p r (i + 1)%Z
  end.

Definition findIndex {A : Type} (p : A -> bool) (l : list A) : Z :=
  findIndexFrom p l 0%Z.

(** [item === v] for an item of the data and a bound. *)
Definition strict_eq (item : TDataItem) (v : value) : bool :=
  match item, v with
  | DNum a, VNum b => num_eqb a b
  | DStr s, VStr t => String.eqb s t
  | _, _ => false
  end.

Section SliderProvider.

(** The numeric reading of a string ([None] when it has none). *)
Variable parseNumber : string -> option Q.

(** The constants of [./defaults]. *)
Variables MIN_VALUE_DEFAULT MAX_VALUE_DEFAULT : num.

(** mz-math: rounding to a number of decimal places, the conversions
    between degrees and radians, the placement of a point on an ellipse,
    the angle of a vector, the linear change of range, and pi. *)
Variable setDecimalPlaces : num -> num -> num.
Variable degreesToRadians : num -> num.
Variable radiansToDegrees : num -> num.
Variable polarToCartesian : Vector2 -> Vector2 -> num -> Vector2.
Variable getV2Angle : Vector2 -> num.
Variable convertRange : num -> num -> num -> num -> num -> num.
Variable ellipseMovement : Vector2 -> num -> num -> num -> Vector2.
Variable Math_PI : num.

(** Modelled from the spec: mz-math's [isNumber], whether the value reads
    as a finite number (4.5, a number is parsed, with a fallback). *)
Definition isNumber (v : value) : bool :=
  match v with
  | VNum n => isFinite n
  | VStr s => match parseNumber s with Some _ => true | None => false end
  | VUndefined | VNull => false
  end.

(** The number a value reads as, once [isNumber] accepted it. *)
Definition toNumber (v : value) : num :=
  match v with
  | VNum n => n
  | VStr s => match parseNumber s with Some q => Fin q | None => NaN end
  | VUndefined => NaN
  | VNull => 0%Z
  end.

(** Modelled from the spec: [getNumber] of [./common], the value parsed
    as a number, the given default when parsing fails (4.5). *)
Definition getNumber (v : value) (defaultValue : num) : num :=
  if isNumber v then toNumber v else defaultValue.

(** ** [slider-provider.ts] *)

Definition getSVGSize (svgRadii maxPointerRadii : Vector2) (strokeWidth : num)
  : Vector2 :=
  let '(rxSvg, rySvg) := svgRadii in
  let '(rxPointer, ryPointer) := maxPointerRadii in
  let diffX := Math_max 0%Z (rxPointer * 2%Z - strokeWidth) in
  let diffY := Math_max 0%Z (ryPointer * 2%Z - strokeWidth) in
  let svgWidth := rxSvg * 2%Z + strokeWidth + diffX in
  let svgHeight := rySvg * 2%Z + strokeWidth + diffY in
  (svgWidth, svgHeight).

Definition getSVGCenter (svgRadii maxPointerRadii : Vector2) (strokeWidth : num)
  : Vector2 :=
  let '(svgWidth, svgHeight) := getSVGSize svgRadii maxPointerRadii strokeWidth in
  (setDecimalPlaces (svgWidth / 2%Z) 2%Z,
   setDecimalPlaces (svgHeight / 2%Z) 2%Z).

Definition getEllipseSegment (startAngleDegrees endAngleDegrees : num)
    (svgRadii pointerRadii : Vector2) (strokeWidth : num) : EllipseSegment :=
  let _endAngleDegrees := endAngleDegrees in
  let largeArcFlag :=
    if _endAngleDegrees - startAngleDegrees <=? 180%Z then 0%Z else 1%Z in
  let _endAngleDegrees :=
    if startAngleDegrees >? _endAngleDegrees
    then _endAngleDegrees + 360%Z
    else _endAngleDegrees in
  let center := getSVGCenter svgRadii pointerRadii strokeWidth in
  let sliderStartPoint :=
    polarToCartesian center svgRadii (degreesToRadians startAngleDegrees) in
  let sliderEndPoint :=
    polarToCartesian center svgRadii (degreesToRadians _endAngleDegrees) in
  mkEllipseSegment sliderStartPoint sliderEndPoint largeArcFlag.

Definition getPointerPosition (svg : SVGSVGElement)
    (absoluteMouse center svgRadii : Vector2)
    (startAngleDegrees endAngleDegrees : num)
    (sliderStartPoint sliderEndPoint : Vector2) : Vector2 :=
  let '(clientX, clientY) := absoluteMouse in
  let rect := getBoundingClientRect svg in
  let relativeMouse : Vector2 := (clientX - left rect, clientY - top rect) in
  let vector := v2Sub relativeMouse center in
  let angle := getV2Angle vector in
  let angle := if angle <? 0%Z then angle + 2%Z * Math_PI else angle in
  let degrees := radiansToDegrees angle in
  let angleSub1 := getAnglesSub degrees startAngleDegrees in
  let angleSub2 := getAnglesSub degrees endAngleDegrees in
  let isInArc := isAngleInArc startAngleDegrees endAngleDegrees degrees in
  if negb isInArc then
    if angleSub1 <=? angleSub2 then sliderStartPoint else sliderEndPoint
  else
    let angle := convertRange angle 0%Z (Math_PI * 2%Z) 0%Z Math_PI in
    ellipseMovement center angle (fst svgRadii) (snd svgRadii).

Definition getMaxPointer (pointers : list IStatePointer) : Vector2 :=
  fold_left
    (fun '(maxX, maxY) pointer =>
       let '(rx, ry) := pointerRadii pointer in
       (Math_max maxX rx, Math_max maxY ry))
    pointers (NegInf, NegInf).

Definition getMinMax (min max : value) (data : TData) : Vector2 :=
  match data with
  | Some data =>
      let minIndex := findIndex (fun item => strict_eq item min) data in
      let maxIndex := findIndex (fun item => strict_eq item max) data in
      let _min := if (minIndex =? -1)%Z then 0%Z else minIndex in
      let _max :=
        if (maxIndex =? -1)%Z then (Z.of_nat (List.length data) - 1)%Z else maxIndex in
      (ofZ _min, ofZ _max)
  | None =>
      let _min := getNumber min MIN_VALUE_DEFAULT in
      let _max := getNumber max MAX_VALUE_DEFAULT in
      let _max := if _min >? _max then _min + MAX_VALUE_DEFAULT else _max in
      let _max := if _max <? _min then _min + MAX_VALUE_DEFAULT else _max in
      (_min, _max)
  end.

Definition getStep (userStep : TStep) (min max : num) : TStep :=
  match userStep with
  | SNull | SUndefined => SUndefined
  | SFun _ => userStep
  | SNum n =>
      if isNumber (VNum n) then
        let step := getNumber (VNum n) 1%Z in
        let diff := Math_abs (max - min) in
        if step >? diff then SUndefined else SNum step
      else SUndefined
  end.

End SliderProvider.

(** ** Reference instances

    Concrete readings of the host's and the library's primitives, on
    which the functions above run: decimal integers for the strings,
    [0] and [100] for the default bounds, [355/113] for pi, and an angle of
    a vector that is linear in each octant (exact on the axes and on the
    diagonals). *)

Module Sample.

Definition parseNumber (s : string) : option Q :=
  if String.eqb s EmptyString then None
  else option_map (fun i => inject_Z (Z.of_int i)) (DecimalString.NilEmpty.int_of_string s).

Definition MIN_VALUE_DEFAULT : num := 0%Z.
Definition MAX_VALUE_DEFAULT : num := 100%Z.

Definition Math_PI : num := Fin (355 # 113).

(** The angle of [(x, y)] in eighths of a turn, between [-4] and [4]. *)
Definition octantAngle (x y : Q) : Q :=
  let ax := Qabs x in
  let ay := Qabs y in
  let base :=
    if Qeq_bool ax 0 && Qeq_bool ay 0 then 0%Q
    else if Qle_bool ay ax then (ay / ax)%Q
    else (2 - ax / ay)%Q in
  let base := if Qle_bool 0 x then base else (4 - base)%Q in
  if Qle_bool 0 y then base else (- base)%Q.

Definition getV2Angle (v : Vector2) : num :=
  match v with
  | (Fin x, Fin y) => Fin (octantAngle x y) * Math_PI / 4%Z
  | _ => NaN
  end.

Definition radiansToDegrees (radians : num) : num :=
  radians * 180%Z / Math_PI.

Definition convertRange (v r1Min r1Max r2Min r2Max : num) : num :=
  (v - r1Min) * (r2Max - r2Min) / (r1Max - r1Min) + r2Min.

(** Sine and cosine of an angle between [0] and pi, by the rational
    approximation [16 x (pi - x) / (5 pi^2 - 4 x (pi - x))]. *)
Definition sinApprox (x : num) : num :=
  let p := x * (Math_PI - x) in
  16%Z * p / (5%Z * Math_PI * Math_PI - 4%Z * p).

Definition cosApprox (x : num) : num :=
  let h := Math_PI / 2%Z in
  if x <=? h then sinApprox (h - x) else neg (sinApprox (x - h)).

Definition ellipseMovement (center : Vector2) (angle radius1 radius2 : num)
  : Vector2 :=
  (fst center + radius1 * cosApprox angle,
   snd center + radius2 * sinApprox angle).

End Sample.

(** ** Notions the properties are stated with *)

(** The angular span from start to end normalized into [[0, 360)]:
    [(end - start) mod 360]. *)
Definition normalizedSpan (startDeg endDeg : Q) : Q :=
  let d := (endDeg - startDeg)%Q in
  (d - 360 * inject_Z (Qfloor (d / 360)))%Q.

(** [k] is the first position of [data] whose item is strictly equal to
    [v]. *)
Definition firstMatch (data : list TDataItem) (v : value) (k : nat) : Prop :=
  exists x,
    nth_error data k = Some x
    /\ strict_eq x v = true
    /\ forall j y, (j < k)%nat -> nth_error data j = Some y -> strict_eq y v = false.

(** No item of [data] is strictly equal to [v]. *)
Definition noMatch (data : list TDataItem) (v : value) : Prop :=
  forall x, In x data -> strict_eq x v = false.

(** The extent the spec gives along one axis:
    [2*r_svg + strokeWidth + max(0, 2*r_pointer - strokeWidth)]. *)
Definition svgExtent (rSvg rPointer strokeWidth : Q) : Q :=
  (2 * rSvg + strokeWidth + Qmax 0 (2 * rPointer - strokeWidth))%Q.

(** [Math.max] folded over a list of numbers from a starting value. *)
Definition maxFrom (l : list num) (a : num) : num := fold_left Math_max l a.

(** The radii of all the pointers are finite. *)
Definition finiteRadii (pointers : list IStatePointer) : Prop :=
  forall p, In p pointers ->
    isFinite (fst (pointerRadii p)) = true /\ isFinite (snd (pointerRadii p)) = true.

(** The angle, in degrees, that [getPointerPosition] derives from the
    input coordinates. *)
Definition inputDegrees (getV2Angle : Vector2 -> num) (radiansToDegrees : num -> num)
    (Math_PI : num) (svg : SVGSVGElement) (absoluteMouse center : Vector2) : num :=
  let rect := getBoundingClientRect svg in
  let relativeMouse : Vector2 :=
    (fst absoluteMouse - left rect, snd absoluteMouse - top rect) in
  let angle := getV2Angle (v2Sub relativeMouse center) in
  radiansToDegrees (if angle <? 0%Z then angle + 2%Z * Math_PI else angle).

(** Sample data: a pointer of given radii, and a canvas whose bounding
    rectangle starts at the origin. *)
Definition pointerOf (rx ry : Z) : IStatePointer :=
  mkStatePointer (ofZ rx, ofZ ry) 0%Z "pointer" 0%Z "#000" false false false.

Definition svgAtOrigin : SVGSVGElement := mkSVG (mkDOMRect 0%Z 0%Z).

(** The angle, in radians, that [getPointerPosition] works with once a
    negative angle of the vector has been raised by a full turn. *)
Definition inputAngle (getV2Angle : Vector2 -> num) (Math_PI : num)
    (svg : SVGSVGElement) (absoluteMouse center : Vector2) : num :=
  let rect := getBoundingClientRect svg in
  let relativeMouse : Vector2 :=
    (fst absoluteMouse - left rect, snd absoluteMouse - top rect) in
  let angle := getV2Angle (v2Sub relativeMouse center) in
  if angle <? 0%Z then angle + 2%Z * Math_PI else angle.

(** The point satisfies the equation of the ellipse of this centre and
    these radii, [((x-cx)/rx)^2 + ((y-cy)/ry)^2 = 1]; all six numbers are
    finite. *)
Definition onEllipse (center radii point : Vector2) : Prop :=
  match center, radii, point with
  | (Fin cx, Fin cy), (Fin rx, Fin ry), (Fin x, Fin y) =>
      (((x - cx) / rx) * ((x - cx) / rx) + ((y - cy) / ry) * ((y - cy) / ry) == 1)%Q
  | _, _, _ => False
  end.

(** Further reference instances: rounding half up to a number of decimal
    places, degrees to radians, and the point of an ellipse at an angle,
    with the approximate sine continued over the whole line. *)
Module SampleGeometry.

Definition setDecimalPlaces (x decimalPlaces : num) : num :=
  match x, decimalPlaces with
  | Fin q, Fin k =>
      let scale := Qpower 10 (Qfloor k) in
      Fin (inject_Z (Qfloor (q * scale + (1 # 2))) / scale)
  | _, _ => x
  end.

Definition degreesToRadians (degrees : num) : num :=
  degrees * Sample.Math_PI / 180%Z.

Definition sinFull (x : num) : num :=
  match x, Sample.Math_PI with
  | Fin q, Fin pi =>
      let y := (q - 2 * pi * inject_Z (Qfloor (q / (2 * pi))))%Q in
      if Qle_bool y pi then Sample.sinApprox (Fin y)
      else neg (Sample.sinApprox (Fin (y - pi)))
  | _, _ => NaN
  end.

Definition cosFull (x : num) : num :=
  sinFull (x + Sample.Math_PI / 2%Z).

Definition polarToCartesian (center radii : Vector2) (radians : num) : Vector2 :=
  (fst center + fst radii * cosFull radians,
   snd center + snd radii * sinFull radians).

(** A point of the ellipse by the rational parametrisation of the circle,
    [((1 - u^2) / (1 + u^2), 2 u / (1 + u^2))], the parameter standing for
    the tangent of its own half. *)
Definition ellipseMovement (center : Vector2) (angle radius1 radius2 : num)
  : Vector2 :=
  match center, angle, radius1, radius2 with
  | (Fin cx, Fin cy), Fin u, Fin r1, Fin r2 =>
      (Fin (cx + r1 * ((1 - u * u) / (1 + u * u)))%Q,
       Fin (cy + r2 * ((2 * u) / (1 + u * u)))%Q)
  | _, _, _, _ => (NaN, NaN)
  end.

End SampleGeometry.

(** ** The size of the canvas on binary64 numbers

    [getSVGSize] once more, every operation rounded to the nearest
    binary64 number as the code runs it. *)
Module Binary64.

Import PrimFloat.
Local Open Scope float_scope.

Definition Vector2 : Type := (float * float)%type.

(** [Math.max] of two arguments: NaN as soon as one of them is, and of
    the two zeros the positive one. *)
Definition Math_max (a b : float) : float :=
  if is_nan a || is_nan b then nan
  else if a <? b then b
  else if b <? a then a
  else if get_sign a then b else a.

Definition getSVGSize (svgRadii maxPointerRadii : Vector2) (strokeWidth : float)
  : Vector2 :=
  let '(rxSvg, rySvg) := svgRadii in
  let '(rxPointer, ryPointer) := maxPointerRadii in
  let diffX := Math_max 0 (rxPointer * 2 - strokeWidth) in
  let diffY := Math_max 0 (ryPointer * 2 - strokeWidth) in
  let svgWidth := rxSvg * 2 + strokeWidth + diffX in
  let svgHeight := rySvg * 2 + strokeWidth + diffY in
  (svgWidth, svgHeight).

(** The binary64 numbers nearest to 50, 10.7, 3 and 3.3. *)
Definition radius50 : float := 50.
Definition radius10_7 : float := 0x1.5666666666666p+3.
Definition stroke3 : float := 3.
Definition stroke3_3 : float := 0x1.a666666666666p+1.

End Binary64.

(** ** The order on numbers *)

Lemma leb_Fin (p q : Q) : (Fin p <=? Fin q) = true <-> (p <= q)%Q.
Proof.
  simpl. rewrite Qle_alt. destruct (p ?= q)%Q; split; congruence.
Qed.

Lemma ltb_Fin (p q : Q) : (Fin p <? Fin q) = true <-> (p < q)%Q.
Proof.
  simpl. rewrite Qlt_alt. destruct (p ?= q)%Q; split; congruence.
Qed.

Lemma gtb_Fin (p q : Q) : (Fin p >? Fin q) = true <-> (q < p)%Q.
Proof. unfold gtb. apply ltb_Fin. Qed.

Lemma ltb_Fin_false (p q : Q) : (Fin p <? Fin q) = false <-> (q <= p)%Q.
Proof.
  rewrite <- Bool.not_true_iff_false, ltb_Fin. split.
  - apply Qnot_lt_le.
  - apply Qle_not_lt.
Qed.

Lemma leb_Fin_false (p q : Q) : (Fin p <=? Fin q) = false <-> (q < p)%Q.
Proof.
  rewrite <- Bool.not_true_iff_false, leb_Fin. split.
  - apply Qnot_le_lt.
  - apply Qlt_not_le.
Qed.

Lemma ltb_leb (a b : num) : (a <? b) = true -> (a <=? b) = true.
Proof.
  destruct a, b; simpl; try congruence.
  destruct (q ?= q0)%Q; congruence.
Qed.

Lemma ltb_irrefl (a : num) : (a <? a) = false.
Proof.
  destruct a; simpl; try reflexivity.
  apply ltb_Fin_false. apply Qle_refl.
Qed.

Lemma ltb_asym (a b : num) : (a <? b) = true -> (b <? a) = false.
Proof.
  destruct a, b; simpl; try congruence.
  intros H. apply ltb_Fin in H. apply ltb_Fin_false. apply Qlt_le_weak, H.
Qed.

Lemma normalizedSpan_range (s e : Q) :
  (0 <= normalizedSpan s e < 360)%Q.
Proof.
  unfold normalizedSpan.
  set (d := (e - s)%Q).
  pose proof (Qfloor_le (d / 360)) as Hlo.
  pose proof (Qlt_floor (d / 360)) as Hhi.
  rewrite inject_Z_plus in Hhi.
  set (k := inject_Z (Qfloor (d / 360))) in *.
  assert (Hd : (d == 360 * (d / 360))%Q) by (field).
  change (inject_Z 1) with 1%Q in Hhi.
  split; lra.
Qed.

Lemma Qfloor_unique (x : Q) (z : Z) :
  (inject_Z z <= x)%Q -> (x < inject_Z (z + 1))%Q -> Qfloor x = z.
Proof.
  intros Hlo Hhi.
  assert (H1 : (Qfloor x < z + 1)%Z).
  { rewrite Zlt_Qlt. eapply Qle_lt_trans; [apply Qfloor_le | exact Hhi]. }
  assert (H2 : (z < Qfloor x + 1)%Z).
  { rewrite Zlt_Qlt. eapply Qle_lt_trans; [exact Hlo | apply Qlt_floor]. }
  lia.
Qed.

Lemma normalizedSpan_forward (s e : Q) :
  (0 <= e - s)%Q -> (e - s < 360)%Q -> (normalizedSpan s e == e - s)%Q.
Proof.
  intros Hlo Hhi. unfold normalizedSpan.
  rewrite (Qfloor_unique ((e - s) / 360) 0).
  - change (inject_Z 0) with 0%Q. lra.
  - change (inject_Z 0) with 0%Q. apply Qle_shift_div_l; lra.
  - change (inject_Z (0 + 1)) with 1%Q. apply Qlt_shift_div_r; lra.
Qed.

Lemma normalizedSpan_wrapped (s e : Q) :
  (e - s < 0)%Q -> (-360 <= e - s)%Q -> (normalizedSpan s e == e - s + 360)%Q.
Proof.
  intros Hhi Hlo. unfold normalizedSpan.
  rewrite (Qfloor_unique ((e - s) / 360) (-1)).
  - change (inject_Z (-1)) with (-1)%Q. lra.
  - change (inject_Z (-1)) with (-1)%Q. apply Qle_shift_div_l; lra.
  - change (inject_Z (-1 + 1)) with 0%Q. apply Qlt_shift_div_r; lra.
Qed.

Section SegmentFacts.

Variable setDecimalPlaces : num -> num -> num.
Variable degreesToRadians : num -> num.
Variable polarToCartesian : Vector2 -> Vector2 -> num -> Vector2.

Local Abbreviation segment :=
  (getEllipseSegment setDecimalPlaces degreesToRadians polarToCartesian).
Local Abbreviation centerOf := (getSVGCenter setDecimalPlaces).

(** C1. [getEllipseSegment] takes the large-arc flag from the raw
    difference [endDeg - startDeg <= 180]; the end angle with 360 added
    when the start exceeds the end only places the end point, and
    whenever that correction applies the flag is 0.  For 350 and 10 the
    end point is placed at 370 and the flag is 0. *)
Theorem getEllipseSegment_flag_from_raw_difference :
  forall (startDeg endDeg : num) (svgRadii pointerRadii : Vector2) (strokeWidth : num),
    let seg := segment startDeg endDeg svgRadii pointerRadii strokeWidth in
    let center := centerOf svgRadii pointerRadii strokeWidth in
    largeArcFlag seg = (if endDeg - startDeg <=? 180%Z then 0%Z else 1%Z)
    /\ sliderStartPoint seg
       = polarToCartesian center svgRadii (degreesToRadians startDeg)
    /\ sliderEndPoint seg
       = polarToCartesian center svgRadii
           (degreesToRadians (if startDeg >? endDeg then endDeg + 360%Z else endDeg))
    /\ (if startDeg >? endDeg then largeArcFlag seg = 0%Z else True)
    /\ largeArcFlag (segment 350%Z 10%Z svgRadii pointerRadii strokeWidth) = 0%Z
    /\ sliderEndPoint (segment 350%Z 10%Z svgRadii pointerRadii strokeWidth)
       = polarToCartesian center svgRadii (degreesToRadians 370%Z).
Proof.
  intros s e radii pr sw seg center.
  repeat split.
  destruct (s >? e) eqn:Hgt; [|exact I].
  subst seg. unfold segment, getEllipseSegment. cbn [largeArcFlag].
  assert (Hle : (e - s <=? 180%Z) = true).
  { destruct s as [| | p |], e as [| | q |]; try discriminate; try reflexivity.
    apply gtb_Fin in Hgt. unfold sub, neg, add, ofZ. apply leb_Fin.
    change (inject_Z 180) with 180%Q. lra. }
  rewrite Hle. reflexivity.
Qed.

(** X20. Where the flag is right: on an arc that does not wrap, the flag
    is 1 exactly when the normalized span exceeds 180. *)
Lemma getEllipseSegment_flag_without_wrap (s e : Q)
    (svgRadii pointerRadii : Vector2) (strokeWidth : num) :
  (0 <= s)%Q -> (s <= e)%Q -> (e < 360)%Q ->
  largeArcFlag (segment (Fin s) (Fin e) svgRadii pointerRadii strokeWidth) = 1%Z
  <-> (180 < normalizedSpan s e)%Q.
Proof.
  intros H0 Hse He.
  rewrite normalizedSpan_forward by lra.
  unfold getEllipseSegment. cbn [largeArcFlag].
  destruct (Fin e - Fin s <=? 180%Z) eqn:Hle.
  - apply leb_Fin in Hle. change (inject_Z 180) with 180%Q in Hle.
    split; [discriminate | lra].
  - apply leb_Fin_false in Hle. change (inject_Z 180) with 180%Q in Hle.
    split; [lra | reflexivity].
Qed.

(** X21. Where it is not: on an arc that wraps the flag is 0 whatever the
    span, and the span exceeds 180 exactly when the start is less than 180
    above the end. *)
Lemma getEllipseSegment_flag_on_wrapped_arc (s e : Q)
    (svgRadii pointerRadii : Vector2) (strokeWidth : num) :
  (0 <= e)%Q -> (e < s)%Q -> (s < 360)%Q ->
  largeArcFlag (segment (Fin s) (Fin e) svgRadii pointerRadii strokeWidth) = 0%Z
  /\ ((180 < normalizedSpan s e)%Q <-> (s - e < 180)%Q).
Proof.
  intros H0 Hes Hs.
  rewrite normalizedSpan_wrapped by lra.
  split; [|split; lra].
  unfold getEllipseSegment. cbn [largeArcFlag].
  assert (Hle : (Fin e - Fin s <=? 180%Z) = true).
  { apply leb_Fin. change (inject_Z 180) with 180%Q. lra. }
  rewrite Hle. reflexivity.
Qed.

(** C2. At start 100 and end 10 the arc runs over 270 degrees, and
    [getEllipseSegment] answers flag 0: the flag is not 1 exactly when
    the normalized span exceeds 180. *)
Theorem getEllipseSegment_flag_misses_wrapped_large_arc :
  forall (svgRadii pointerRadii : Vector2) (strokeWidth : num),
    let seg := segment 100%Z 10%Z svgRadii pointerRadii strokeWidth in
    largeArcFlag seg = 0%Z
    /\ (normalizedSpan 100 10 == 270)%Q
    /\ ~ (largeArcFlag seg = 1%Z <-> (180 < normalizedSpan 100 10)%Q).
Proof.
  intros radii pr sw seg.
  assert (Hspan : (normalizedSpan 100 10 == 270)%Q) by reflexivity.
  repeat split; try exact Hspan.
  intros [_ H].
  assert (Hflag : largeArcFlag seg = 1%Z) by (apply H; rewrite Hspan; lra).
  discriminate Hflag.
Qed.

End SegmentFacts.

(** ** [findIndex] *)

Lemma findIndexFrom_none {A : Type} (p : A -> bool) (l : list A) (i : Z) :
  (forall x, In x l -> p x = false) -> findIndexFrom p l i = (-1)%Z.
Proof.
  revert i. induction l as [|x r IH]; intros i Hall; simpl.
  - reflexivity.
  - rewrite (Hall x (or_introl eq_refl)). apply IH.
    intros y Hy. apply Hall. right. exact Hy.
Qed.

Lemma findIndexFrom_first {A : Type} (p : A -> bool) (l : list A) (i : Z) (k : nat) (x : A) :
  nth_error l k = Some x ->
  p x = true ->
  (forall j y, (j < k)%nat -> nth_error l j = Some y -> p y = false) ->
  findIndexFrom p l i = (i + Z.of_nat k)%Z.
Proof.
  revert i k. induction l as [|a r IH]; intros i k Hk Hx Hbefore.
  - destruct k; discriminate Hk.
  - destruct k as [|k]; simpl in *.
    + injection Hk as ->. rewrite Hx. lia.
    + rewrite (Hbefore 0%nat a (Nat.lt_0_succ k) eq_refl).
      rewrite (IH (i + 1)%Z k Hk Hx).
      * lia.
      * intros j y Hj Hy. apply (Hbefore (S j) y); [lia | exact Hy].
Qed.

Lemma firstMatch_or_noMatch (data : list TDataItem) (v : value) :
  (exists k, firstMatch data v k) \/ noMatch data v.
Proof.
  induction data as [|a r IH].
  - right. intros x [].
  - destruct (strict_eq a v) eqn:Ha.
    + left. exists 0%nat, a. repeat split; trivial. intros j y Hj. lia.
    + destruct IH as [[k (x & Hk & Hx & Hb)] | Hno].
      * left. exists (S k), x. repeat split; trivial.
        intros [|j] y Hj Hy; simpl in Hy.
        -- injection Hy as <-. exact Ha.
        -- apply (Hb j y); [lia | exact Hy].
      * right. intros x [<- | Hx]; [exact Ha | apply Hno, Hx].
Qed.

Lemma firstMatch_lt_length (data : list TDataItem) (v : value) (k : nat) :
  firstMatch data v k -> (k < List.length data)%nat.
Proof.
  intros (x & Hk & _). apply nth_error_Some. congruence.
Qed.

(** The two corrections of [max] in the numeric branch come to one. *)
Lemma correct_max_twice (m M X : num) :
  (let M1 := if m >? M then X else M in if M1 <? m then X else M1)
  = (if m >? M then X else M).
Proof.
  cbv zeta. destruct (m >? M) eqn:Hgt.
  - destruct (X <? m); reflexivity.
  - unfold gtb in Hgt. rewrite Hgt. reflexivity.
Qed.

Lemma leb_add_nonneg (p : Q) (X : num) :
  isFinite X = true -> 0%Z <= X -> Fin p <= Fin p + X.
Proof.
  destruct X as [| | x |]; try discriminate. intros _ H0.
  apply leb_Fin in H0. apply leb_Fin. change (inject_Z 0) with 0%Q in H0. lra.
Qed.

Section RangeFacts.

Variable parseNumber : string -> option Q.
Variables MIN_VALUE_DEFAULT MAX_VALUE_DEFAULT : num.

Local Abbreviation minMax := (getMinMax parseNumber MIN_VALUE_DEFAULT MAX_VALUE_DEFAULT).
Local Abbreviation parsed := (getNumber parseNumber).
Local Abbreviation step := (getStep parseNumber).

Lemma getNumber_finite (v : value) (d : num) :
  isFinite d = true -> isFinite (parsed v d) = true.
Proof.
  intros Hd. unfold getNumber, isNumber, toNumber.
  destruct v as [n | s | |]; trivial.
  - destruct (isFinite n) eqn:Hn; trivial.
  - destruct (parseNumber s); trivial.
Qed.

Lemma getMinMax_numeric (min max : value) :
  minMax min max None
  = (parsed min MIN_VALUE_DEFAULT,
     if parsed min MIN_VALUE_DEFAULT >? parsed max MAX_VALUE_DEFAULT
     then parsed min MIN_VALUE_DEFAULT + MAX_VALUE_DEFAULT
     else parsed max MAX_VALUE_DEFAULT).
Proof.
  unfold getMinMax. cbv zeta. f_equal. apply correct_max_twice.
Qed.

(** C3, as amended.  Without data, and with finite default constants of
    which the maximum is not negative, the pair [getMinMax] returns has
    its first component at most its second, and the first component is
    the parsed [min]: only [max] is corrected. *)
Theorem getMinMax_numeric_ordered :
  forall (min max : value),
    isFinite MIN_VALUE_DEFAULT = true ->
    isFinite MAX_VALUE_DEFAULT = true ->
    0%Z <= MAX_VALUE_DEFAULT ->
    fst (minMax min max None) <= snd (minMax min max None)
    /\ fst (minMax min max None) = parsed min MIN_VALUE_DEFAULT.
Proof.
  intros min max Hmin Hmax Hpos.
  rewrite getMinMax_numeric. cbn [fst snd]. split; [|reflexivity].
  pose proof (getNumber_finite min _ Hmin) as Hm.
  pose proof (getNumber_finite max _ Hmax) as HM.
  destruct (parsed min MIN_VALUE_DEFAULT) as [| | m |]; try discriminate.
  destruct (parsed max MAX_VALUE_DEFAULT) as [| | M |]; try discriminate.
  destruct (Fin m >? Fin M) eqn:Hgt.
  - apply leb_add_nonneg; assumption.
  - unfold gtb in Hgt. apply ltb_Fin_false in Hgt. apply leb_Fin. exact Hgt.
Qed.

(** C4. With data that is not empty, [getMinMax] answers for [min] and
    for [max] the first position whose item is strictly equal to it, 0 for
    a [min] and the last position for a [max] that no item equals; both
    are positions of the data, and they are not reordered:
    [getMinMax('b', 'a', ['a','b','c'])] is [[1, 0]]. *)
Theorem getMinMax_categorical_first_match :
  forall (min max : value) (data : list TDataItem),
    data <> [] ->
    let r := minMax min max (Some data) in
    (forall k, firstMatch data min k -> fst r = ofZ (Z.of_nat k))
    /\ (noMatch data min -> fst r = ofZ 0)
    /\ (forall k, firstMatch data max k -> snd r = ofZ (Z.of_nat k))
    /\ (noMatch data max -> snd r = ofZ (Z.of_nat (List.length data - 1)))
    /\ ((exists k, firstMatch data min k) \/ noMatch data min)
    /\ ((exists k, firstMatch data max k) \/ noMatch data max)
    /\ (exists i j, r = (ofZ (Z.of_nat i), ofZ (Z.of_nat j))
                    /\ (i < List.length data)%nat /\ (j < List.length data)%nat)
    /\ minMax (VStr "b") (VStr "a") (Some [DStr "a"; DStr "b"; DStr "c"])
       = (ofZ 1, ofZ 0).
Proof.
  intros min max data Hne r.
  assert (Hlen : (0 < List.length data)%nat).
  { destruct data; [congruence | simpl; lia]. }
  assert (Hfirst : forall v k, firstMatch data v k ->
            findIndex (fun item => strict_eq item v) data = Z.of_nat k).
  { intros v k (x & Hk & Hx & Hb). unfold findIndex.
    rewrite (findIndexFrom_first _ data 0 k x Hk Hx Hb). lia. }
  assert (Hnone : forall v, noMatch data v ->
            findIndex (fun item => strict_eq item v) data = (-1)%Z).
  { intros v Hno. apply findIndexFrom_none. exact Hno. }
  assert (Hfst_first : forall k, firstMatch data min k -> fst r = ofZ (Z.of_nat k)).
  { intros k Hk. subst r. unfold getMinMax. cbn [fst]. rewrite (Hfirst _ _ Hk).
    destruct (Z.eqb_spec (Z.of_nat k) (-1)); [lia | reflexivity]. }
  assert (Hfst_none : noMatch data min -> fst r = ofZ 0).
  { intros Hno. subst r. unfold getMinMax. cbn [fst]. rewrite (Hnone _ Hno).
    reflexivity. }
  assert (Hsnd_first : forall k, firstMatch data max k -> snd r = ofZ (Z.of_nat k)).
  { intros k Hk. subst r. unfold getMinMax. cbn [snd]. rewrite (Hfirst _ _ Hk).
    destruct (Z.eqb_spec (Z.of_nat k) (-1)); [lia | reflexivity]. }
  assert (Hsnd_none : noMatch data max -> snd r = ofZ (Z.of_nat (List.length data - 1))).
  { intros Hno. subst r. unfold getMinMax. cbn [snd]. rewrite (Hnone _ Hno).
    cbn [Z.eqb Pos.eqb]. f_equal. lia. }
  repeat split; trivial; try apply firstMatch_or_noMatch.
  assert (Hi : exists i, fst r = ofZ (Z.of_nat i) /\ (i < List.length data)%nat).
  { destruct (firstMatch_or_noMatch data min) as [[k Hk] | Hno].
    - exists k. split; [auto | eapply firstMatch_lt_length; eauto].
    - exists 0%nat. split; [auto | exact Hlen]. }
  assert (Hj : exists j, snd r = ofZ (Z.of_nat j) /\ (j < List.length data)%nat).
  { destruct (firstMatch_or_noMatch data max) as [[k Hk] | Hno].
    - exists k. split; [auto | eapply firstMatch_lt_length; eauto].
    - exists (List.length data - 1)%nat. split; [auto | lia]. }
  destruct Hi as (i & Hi & Hil), Hj as (j & Hj & Hjl).
  exists i, j. repeat split; trivial.
  rewrite <- Hi, <- Hj. destruct r; reflexivity.
Qed.

(** C5. Without data, [getMinMax] reads [min] and [max] as numbers and
    takes [MIN_VALUE_DEFAULT] and [MAX_VALUE_DEFAULT] where the reading
    fails; when the [min] read exceeds the [max] read, [max] becomes
    [min + MAX_VALUE_DEFAULT].  So [getMinMax(5, 2)] is
    [[5, 5 + MAX_VALUE_DEFAULT]], and, the default minimum not exceeding
    the default maximum, [getMinMax(undefined, undefined)] is
    [[MIN_VALUE_DEFAULT, MAX_VALUE_DEFAULT]]. *)
Theorem getMinMax_numeric_defaults_and_inversion :
  forall (min max : value),
    let m := parsed min MIN_VALUE_DEFAULT in
    let M := parsed max MAX_VALUE_DEFAULT in
    minMax min max None = (m, if m >? M then m + MAX_VALUE_DEFAULT else M)
    /\ (forall q : Q, min = VNum (Fin q) -> m = Fin q)
    /\ (forall q : Q, max = VNum (Fin q) -> M = Fin q)
    /\ (isNumber parseNumber min = false -> m = MIN_VALUE_DEFAULT)
    /\ (isNumber parseNumber max = false -> M = MAX_VALUE_DEFAULT)
    /\ isNumber parseNumber VUndefined = false
    /\ ((MIN_VALUE_DEFAULT >? MAX_VALUE_DEFAULT) = false ->
        minMax VUndefined VUndefined None = (MIN_VALUE_DEFAULT, MAX_VALUE_DEFAULT))
    /\ minMax (VNum 5%Z) (VNum 2%Z) None = (ofZ 5, 5%Z + MAX_VALUE_DEFAULT).
Proof.
  intros min max m M.
  split; [apply getMinMax_numeric|].
  split; [intros q ->; reflexivity|].
  split; [intros q ->; reflexivity|].
  split; [intros H; subst m; unfold getNumber; rewrite H; reflexivity|].
  split; [intros H; subst M; unfold getNumber; rewrite H; reflexivity|].
  split; [reflexivity|].
  split.
  - intros Hdef. rewrite getMinMax_numeric.
    change (parsed VUndefined MIN_VALUE_DEFAULT) with MIN_VALUE_DEFAULT.
    change (parsed VUndefined MAX_VALUE_DEFAULT) with MAX_VALUE_DEFAULT.
    rewrite Hdef. reflexivity.
  - rewrite getMinMax_numeric. reflexivity.
Qed.

(** C6, as amended. [getStep] answers undefined for null and for
    undefined, the function itself for a function, and for a finite
    number that number, unless it exceeds [|max - min|], when it answers
    undefined: [getStep(1000, 0, 10)] is undefined and [getStep(5, 0, 10)]
    is 5.  A number that is not finite, NaN or an infinity, is answered by
    undefined, whether it exceeds the range or not. *)
Theorem getStep_cases :
  forall (min max : num),
    step SNull min max = SUndefined
    /\ step SUndefined min max = SUndefined
    /\ (forall f, step (SFun f) min max = SFun f)
    /\ (forall q : Q,
          step (SNum (Fin q)) min max
          = if Fin q >? Math_abs (max - min) then SUndefined else SNum (Fin q))
    /\ (forall n, isFinite n = false -> step (SNum n) min max = SUndefined)
    /\ step (SNum 1000%Z) 0%Z 10%Z = SUndefined
    /\ step (SNum 5%Z) 0%Z 10%Z = SNum 5%Z.
Proof.
  intros min max. repeat split.
  intros n Hn. unfold getStep, isNumber. rewrite Hn. reflexivity.
Qed.

End RangeFacts.

(** C3, as stated, fails with data: the positions of ['b'] and ['a'] in
    [['a','b','c']] come back as [[1, 0]]. *)
Lemma getMinMax_categorical_not_ordered :
  ~ (fst (getMinMax Sample.parseNumber Sample.MIN_VALUE_DEFAULT Sample.MAX_VALUE_DEFAULT
            (VStr "b") (VStr "a") (Some [DStr "a"; DStr "b"; DStr "c"]))
     <= snd (getMinMax Sample.parseNumber Sample.MIN_VALUE_DEFAULT Sample.MAX_VALUE_DEFAULT
               (VStr "b") (VStr "a") (Some [DStr "a"; DStr "b"; DStr "c"]))).
Proof.
  unfold num_le. vm_compute. discriminate.
Qed.

Lemma getMinMax_numeric_ordered_witness :
  isFinite Sample.MIN_VALUE_DEFAULT = true
  /\ isFinite Sample.MAX_VALUE_DEFAULT = true
  /\ 0%Z <= Sample.MAX_VALUE_DEFAULT
  /\ getMinMax Sample.parseNumber Sample.MIN_VALUE_DEFAULT Sample.MAX_VALUE_DEFAULT
       (VStr "7") (VNum 2%Z) None = (ofZ 7, Fin (107 # 1))
  /\ fst (getMinMax Sample.parseNumber Sample.MIN_VALUE_DEFAULT Sample.MAX_VALUE_DEFAULT
            (VStr "7") (VNum 2%Z) None)
     <= snd (getMinMax Sample.parseNumber Sample.MIN_VALUE_DEFAULT Sample.MAX_VALUE_DEFAULT
               (VStr "7") (VNum 2%Z) None).
Proof.
  split; [reflexivity|]. split; [reflexivity|]. split; [reflexivity|].
  split; [reflexivity|].
  apply (getMinMax_numeric_ordered Sample.parseNumber
           Sample.MIN_VALUE_DEFAULT Sample.MAX_VALUE_DEFAULT (VStr "7") (VNum 2%Z));
    reflexivity.
Defined.

Lemma getMinMax_categorical_first_match_witness :
  [DNum 10%Z; DStr "b"; DNum 10%Z] <> []
  /\ firstMatch [DNum 10%Z; DStr "b"; DNum 10%Z] (VNum 10%Z) 0
  /\ noMatch [DNum 10%Z; DStr "b"; DNum 10%Z] (VStr "z")
  /\ getMinMax Sample.parseNumber Sample.MIN_VALUE_DEFAULT Sample.MAX_VALUE_DEFAULT
       (VNum 10%Z) (VStr "z") (Some [DNum 10%Z; DStr "b"; DNum 10%Z])
     = (ofZ 0, ofZ 2).
Proof.
  assert (Hne : [DNum 10%Z; DStr "b"; DNum 10%Z] <> []) by discriminate.
  assert (Hfirst : firstMatch [DNum 10%Z; DStr "b"; DNum 10%Z] (VNum 10%Z) 0).
  { exists (DNum 10%Z). repeat split. intros j y Hj. inversion Hj. }
  assert (Hno : noMatch [DNum 10%Z; DStr "b"; DNum 10%Z] (VStr "z")).
  { intros x [<- | [<- | [<- | []]]]; reflexivity. }
  split; [exact Hne|]. split; [exact Hfirst|]. split; [exact Hno|].
  destruct (getMinMax_categorical_first_match Sample.parseNumber
              Sample.MIN_VALUE_DEFAULT Sample.MAX_VALUE_DEFAULT
              (VNum 10%Z) (VStr "z") [DNum 10%Z; DStr "b"; DNum 10%Z] Hne)
    as (Ha & _ & _ & Hb & _).
  specialize (Ha 0%nat Hfirst). specialize (Hb Hno).
  rewrite (surjective_pairing (getMinMax _ _ _ _ _ _)), Ha, Hb. reflexivity.
Defined.

Lemma getMinMax_numeric_defaults_witness :
  (Sample.MIN_VALUE_DEFAULT >? Sample.MAX_VALUE_DEFAULT) = false
  /\ isNumber Sample.parseNumber (VStr "abc") = false
  /\ getMinMax Sample.parseNumber Sample.MIN_VALUE_DEFAULT Sample.MAX_VALUE_DEFAULT
       VUndefined VUndefined None
     = (Sample.MIN_VALUE_DEFAULT, Sample.MAX_VALUE_DEFAULT)
  /\ getNumber Sample.parseNumber (VStr "abc") Sample.MAX_VALUE_DEFAULT
     = Sample.MAX_VALUE_DEFAULT.
Proof.
  split; [reflexivity|]. split; [reflexivity|].
  destruct (getMinMax_numeric_defaults_and_inversion Sample.parseNumber
              Sample.MIN_VALUE_DEFAULT Sample.MAX_VALUE_DEFAULT
              VUndefined (VStr "abc"))
    as (_ & _ & _ & _ & Hmax & _ & Hundef & _).
  split; [apply Hundef; reflexivity | apply Hmax; reflexivity].
Defined.

(** C6, as stated, fails at NaN: it is a number, it does not exceed
    [|10 - 0|], and it is not returned. *)
Lemma getStep_NaN_not_returned :
  ~ ((NaN >? Math_abs (10%Z - 0%Z)) = false ->
     getStep Sample.parseNumber (SNum NaN) 0%Z 10%Z = SNum NaN).
Proof.
  intros H. specialize (H eq_refl). discriminate H.
Qed.

Lemma getStep_cases_witness :
  isFinite NegInf = false
  /\ (NegInf >? Math_abs (10%Z - 0%Z)) = false
  /\ getStep Sample.parseNumber (SNum NegInf) 0%Z 10%Z = SUndefined.
Proof.
  split; [reflexivity|]. split; [reflexivity|].
  destruct (getStep_cases Sample.parseNumber 0%Z 10%Z) as (_ & _ & _ & _ & Hrej & _).
  apply Hrej. reflexivity.
Defined.

(** ** The size of the canvas *)

Lemma svgExtent_mono (r p s p' s' : Q) :
  (p <= p')%Q -> (s <= s')%Q -> (svgExtent r p s <= svgExtent r p' s')%Q.
Proof.
  intros Hp Hs. unfold svgExtent.
  destruct (Q.max_spec 0 (2 * p - s)) as [[_ ->] | [_ ->]];
    destruct (Q.max_spec 0 (2 * p' - s')) as [[? ->] | [? ->]]; lra.
Qed.

Lemma getSVGSize_finite (rx ry px py s : Q) :
  exists w h,
    getSVGSize (Fin rx, Fin ry) (Fin px, Fin py) (Fin s) = (Fin w, Fin h)
    /\ (w == svgExtent rx px s)%Q /\ (h == svgExtent ry py s)%Q.
Proof.
  eexists. eexists. split; [reflexivity|].
  unfold svgExtent. change (inject_Z 2) with 2%Q. change (inject_Z 0) with 0%Q.
  split.
  - destruct (Q.max_spec 0 (px * 2 + - s)) as [[? ->] | [? ->]];
      destruct (Q.max_spec 0 (2 * px - s)) as [[? ->] | [? ->]]; lra.
  - destruct (Q.max_spec 0 (py * 2 + - s)) as [[? ->] | [? ->]];
      destruct (Q.max_spec 0 (2 * py - s)) as [[? ->] | [? ->]]; lra.
Qed.

(** C9, as amended. On finite radii and stroke width [getSVGSize]
    answers [2*rx_svg + strokeWidth + max(0, 2*rx_pointer - strokeWidth)]
    for the width and the same with the [ry]s for the height.  With radii
    of the ellipse that are not negative, neither decreases when a pointer
    radius grows; and a side does not decrease when the stroke width grows
    from a value that is at least the diameter of the pointer on that
    axis. *)
Theorem getSVGSize_formula_and_pointer_monotone :
  forall (rx ry px py s : Q),
    fst (getSVGSize (Fin rx, Fin ry) (Fin px, Fin py) (Fin s))
      == Fin (svgExtent rx px s)
    /\ snd (getSVGSize (Fin rx, Fin ry) (Fin px, Fin py) (Fin s))
      == Fin (svgExtent ry py s)
    /\ (forall px' py' : Q,
          (0 <= rx)%Q -> (0 <= ry)%Q -> (px <= px')%Q -> (py <= py')%Q ->
          fst (getSVGSize (Fin rx, Fin ry) (Fin px, Fin py) (Fin s))
            <= fst (getSVGSize (Fin rx, Fin ry) (Fin px', Fin py') (Fin s))
          /\ snd (getSVGSize (Fin rx, Fin ry) (Fin px, Fin py) (Fin s))
            <= snd (getSVGSize (Fin rx, Fin ry) (Fin px', Fin py') (Fin s)))
    /\ (forall s' : Q,
          (2 * px <= s)%Q -> (s <= s')%Q ->
          fst (getSVGSize (Fin rx, Fin ry) (Fin px, Fin py) (Fin s))
            <= fst (getSVGSize (Fin rx, Fin ry) (Fin px, Fin py) (Fin s')))
    /\ (forall s' : Q,
          (2 * py <= s)%Q -> (s <= s')%Q ->
          snd (getSVGSize (Fin rx, Fin ry) (Fin px, Fin py) (Fin s))
            <= snd (getSVGSize (Fin rx, Fin ry) (Fin px, Fin py) (Fin s'))).
Proof.
  intros rx ry px py s.
  destruct (getSVGSize_finite rx ry px py s) as (w & h & -> & Hw & Hh).
  cbn [fst snd]. split; [apply Qeq_bool_iff, Hw|]. split; [apply Qeq_bool_iff, Hh|].
  split; [|split].
  - intros px' py' _ _ Hpx Hpy.
    destruct (getSVGSize_finite rx ry px' py' s) as (w' & h' & -> & Hw' & Hh').
    cbn [fst snd]. split; apply leb_Fin.
    + rewrite Hw, Hw'. apply svgExtent_mono; [assumption | apply Qle_refl].
    + rewrite Hh, Hh'. apply svgExtent_mono; [assumption | apply Qle_refl].
  - intros s' _ Hs.
    destruct (getSVGSize_finite rx ry px py s') as (w' & h' & -> & Hw' & Hh').
    cbn [fst]. apply leb_Fin. rewrite Hw, Hw'.
    apply svgExtent_mono; [apply Qle_refl | assumption].
  - intros s' _ Hs.
    destruct (getSVGSize_finite rx ry px py s') as (w' & h' & -> & Hw' & Hh').
    cbn [snd]. apply leb_Fin. rewrite Hh, Hh'.
    apply svgExtent_mono; [apply Qle_refl | assumption].
Qed.

(** C9, as stated, fails on binary64 numbers: with radii 50 and pointer
    radii 10.7 the width at stroke width 3.3 is below the width at 3. *)
Lemma getSVGSize_stroke_not_monotone_binary64 :
  PrimFloat.leb Binary64.stroke3 Binary64.stroke3_3 = true
  /\ PrimFloat.ltb
       (fst (Binary64.getSVGSize (Binary64.radius50, Binary64.radius50)
               (Binary64.radius10_7, Binary64.radius10_7) Binary64.stroke3_3))
       (fst (Binary64.getSVGSize (Binary64.radius50, Binary64.radius50)
               (Binary64.radius10_7, Binary64.radius10_7) Binary64.stroke3))
     = true.
Proof.
  split; vm_compute; reflexivity.
Qed.

Lemma getSVGSize_formula_and_pointer_monotone_witness :
  (0 <= 50)%Q /\ (0 <= 40)%Q /\ (4 <= 6)%Q /\ (1 <= 3)%Q
  /\ (2 * 4 <= 10)%Q /\ (10 <= 20)%Q
  /\ getSVGSize (Fin 50, Fin 40) (Fin 4, Fin 1) (Fin 10) = (Fin (110 # 1), Fin (90 # 1))
  /\ getSVGSize (Fin 50, Fin 40) (Fin 6, Fin 3) (Fin 10) = (Fin (112 # 1), Fin (90 # 1))
  /\ fst (getSVGSize (Fin 50, Fin 40) (Fin 4, Fin 1) (Fin 10))
     <= fst (getSVGSize (Fin 50, Fin 40) (Fin 6, Fin 3) (Fin 10))
  /\ fst (getSVGSize (Fin 50, Fin 40) (Fin 4, Fin 1) (Fin 10))
     <= fst (getSVGSize (Fin 50, Fin 40) (Fin 4, Fin 1) (Fin 20)).
Proof.
  assert (H1 : (0 <= 50)%Q) by (apply Qle_bool_imp_le; reflexivity).
  assert (H2 : (0 <= 40)%Q) by (apply Qle_bool_imp_le; reflexivity).
  assert (H3 : (4 <= 6)%Q) by (apply Qle_bool_imp_le; reflexivity).
  assert (H4 : (1 <= 3)%Q) by (apply Qle_bool_imp_le; reflexivity).
  assert (H5 : (2 * 4 <= 10)%Q) by (apply Qle_bool_imp_le; reflexivity).
  assert (H6 : (10 <= 20)%Q) by (apply Qle_bool_imp_le; reflexivity).
  split; [exact H1|]. split; [exact H2|]. split; [exact H3|]. split; [exact H4|].
  split; [exact H5|]. split; [exact H6|].
  split; [reflexivity|]. split; [reflexivity|].
  destruct (getSVGSize_formula_and_pointer_monotone 50 40 4 1 10)
    as (_ & _ & Hpointer & Hstroke & _).
  split.
  - exact (proj1 (Hpointer 6%Q 3%Q H1 H2 H3 H4)).
  - exact (Hstroke 20%Q H5 H6).
Defined.

(** ** The largest pointer *)

Lemma Math_max_NegInf_l (a : num) : Math_max NegInf a = a.
Proof. destruct a; reflexivity. Qed.

Lemma leb_refl_finite (a : num) : isNaN a = false -> (a <=? a) = true.
Proof.
  destruct a; simpl; try congruence. intros _.
  apply leb_Fin. apply Qle_refl.
Qed.

Lemma leb_trans (a b c : num) :
  (a <=? b) = true -> (b <=? c) = true -> (a <=? c) = true.
Proof.
  destruct a as [| | p |], b as [| | q |], c as [| | r |]; simpl; try congruence.
  intros H1 H2. apply leb_Fin in H1. apply leb_Fin in H2. apply leb_Fin.
  eapply Qle_trans; eassumption.
Qed.

Lemma Qmax_is_one (p q : Q) : Qmax p q = p \/ Qmax p q = q.
Proof.
  unfold Qmax, GenericMinMax.gmax. destruct (p ?= q)%Q; auto.
Qed.

Lemma maxFrom_spec (l : list num) :
  forall a,
    (forall x, In x l -> isFinite x = true) ->
    a <> NaN -> a <> PosInf ->
    (a <=? maxFrom l a) = true
    /\ (forall x, In x l -> (x <=? maxFrom l a) = true)
    /\ (maxFrom l a = a \/ In (maxFrom l a) l).
Proof.
  induction l as [|x r IH]; intros a Hfin Hnan Hinf.
  - simpl. split; [|split; [intros x []|left; reflexivity]].
    apply leb_refl_finite. destruct a; auto; congruence.
  - assert (Hx : isFinite x = true) by (apply Hfin; left; reflexivity).
    destruct x as [| | q |]; try discriminate.
    assert (Hstep : exists m, Math_max a (Fin q) = Fin m
                              /\ (a <=? Fin m) = true /\ (Fin q <=? Fin m) = true
                              /\ (Fin m = a \/ Fin m = Fin q)).
    { destruct a as [| | p |]; try congruence.
      - exists q. repeat split; auto. apply leb_Fin, Qle_refl.
      - exists (Qmax p q). split; [reflexivity|].
        split; [apply leb_Fin, Q.le_max_l|].
        split; [apply leb_Fin, Q.le_max_r|].
        destruct (Qmax_is_one p q) as [-> | ->]; auto. }
    destruct Hstep as (m & Hm & Ham & Hqm & Hone).
    destruct (IH (Fin m)) as (H1 & H2 & H3); try discriminate.
    { intros y Hy. apply Hfin. right. exact Hy. }
    unfold maxFrom in *. cbn [fold_left]. rewrite Hm.
    split; [eapply leb_trans; eassumption|].
    split.
    + intros y [<- | Hy]; [eapply leb_trans; eassumption | apply H2, Hy].
    + destruct H3 as [-> | H3].
      * destruct Hone as [-> | ->]; [left; reflexivity | right; left; reflexivity].
      * right; right; exact H3.
Qed.

Lemma getMaxPointer_components (pointers : list IStatePointer) (acc : Vector2) :
  fold_left
    (fun '(maxX, maxY) pointer =>
       let '(rx, ry) := pointerRadii pointer in
       (Math_max maxX rx, Math_max maxY ry))
    pointers acc
  = (maxFrom (map (fun p => fst (pointerRadii p)) pointers) (fst acc),
     maxFrom (map (fun p => snd (pointerRadii p)) pointers) (snd acc)).
Proof.
  revert acc. induction pointers as [|p ps IH]; intros [ax ay].
  - reflexivity.
  - cbn [fold_left map]. destruct (pointerRadii p) as [rx ry] eqn:Hp.
    rewrite IH. unfold maxFrom. cbn [fold_left fst snd]. reflexivity.
Qed.

(** C10. On no pointer at all [getMaxPointer] answers
    [[-Infinity, -Infinity]] and raises nothing.  On pointers, the
    starting [-Infinity] leaves no trace: the answer is [Math.max] over
    the radii of the pointers, component by component; with finite radii
    each component is a radius of some pointer and no pointer has a
    larger one. *)
Theorem getMaxPointer_empty_and_componentwise_max :
  getMaxPointer [] = (NegInf, NegInf)
  /\ (forall p ps,
        getMaxPointer (p :: ps)
        = (maxFrom (map (fun p => fst (pointerRadii p)) ps) (fst (pointerRadii p)),
           maxFrom (map (fun p => snd (pointerRadii p)) ps) (snd (pointerRadii p))))
  /\ (forall pointers,
        pointers <> [] -> finiteRadii pointers ->
        (forall p, In p pointers ->
           fst (pointerRadii p) <= fst (getMaxPointer pointers)
           /\ snd (pointerRadii p) <= snd (getMaxPointer pointers))
        /\ (exists p, In p pointers
                      /\ fst (getMaxPointer pointers) = fst (pointerRadii p))
        /\ (exists p, In p pointers
                      /\ snd (getMaxPointer pointers) = snd (pointerRadii p))).
Proof.
  split; [reflexivity|]. split.
  - intros p ps. unfold getMaxPointer. rewrite getMaxPointer_components.
    cbn [map fst snd]. unfold maxFrom. cbn [fold_left].
    rewrite !Math_max_NegInf_l. reflexivity.
  - intros pointers Hne Hfin. unfold getMaxPointer.
    rewrite getMaxPointer_components. cbn [fst snd].
    assert (Hcomp : forall f : IStatePointer -> num,
              (forall p, In p pointers -> isFinite (f p) = true) ->
              (forall p, In p pointers -> (f p <=? maxFrom (map f pointers) NegInf) = true)
              /\ exists p, In p pointers /\ maxFrom (map f pointers) NegInf = f p).
    { intros f Hf.
      destruct (maxFrom_spec (map f pointers) NegInf) as (_ & Hub & Hone);
        try discriminate.
      { intros x Hx. apply in_map_iff in Hx. destruct Hx as (p & <- & Hp). auto. }
      split.
      - intros p Hp. apply Hub. apply in_map. exact Hp.
      - destruct Hone as [Heq | Hin].
        + destruct pointers as [|p ps]; [congruence|].
          pose proof (Hub (f p) (or_introl eq_refl)) as Hle.
          rewrite Heq in Hle. pose proof (Hf p (or_introl eq_refl)) as Hp.
          destruct (f p); discriminate.
        + apply in_map_iff in Hin. destruct Hin as (p & Hp & Hin).
          exists p. split; [exact Hin | symmetry; exact Hp]. }
    destruct (Hcomp (fun p => fst (pointerRadii p))) as (Hx1 & Hx2).
    { intros p Hp. apply (Hfin p Hp). }
    destruct (Hcomp (fun p => snd (pointerRadii p))) as (Hy1 & Hy2).
    { intros p Hp. apply (Hfin p Hp). }
    split; [|split; assumption].
    intros p Hp. split; [apply Hx1, Hp | apply Hy1, Hp].
Qed.

Lemma getMaxPointer_componentwise_max_witness :
  [pointerOf 2 3; pointerOf 5 1; pointerOf 4 4] <> []
  /\ finiteRadii [pointerOf 2 3; pointerOf 5 1; pointerOf 4 4]
  /\ getMaxPointer [pointerOf 2 3; pointerOf 5 1; pointerOf 4 4] = (ofZ 5, ofZ 4)
  /\ (exists p, In p [pointerOf 2 3; pointerOf 5 1; pointerOf 4 4]
                /\ fst (getMaxPointer [pointerOf 2 3; pointerOf 5 1; pointerOf 4 4])
                   = fst (pointerRadii p)).
Proof.
  assert (Hne : [pointerOf 2 3; pointerOf 5 1; pointerOf 4 4] <> []) by discriminate.
  assert (Hfin : finiteRadii [pointerOf 2 3; pointerOf 5 1; pointerOf 4 4]).
  { intros p [<- | [<- | [<- | []]]]; split; reflexivity. }
  split; [exact Hne|]. split; [exact Hfin|]. split; [reflexivity|].
  destruct getMaxPointer_empty_and_componentwise_max as (_ & _ & Hmax).
  exact (proj1 (proj2 (Hmax _ Hne Hfin))).
Defined.

(** ** The position of a pointer *)

Lemma ltb_leb_false (a b : num) : (b <? a) = true -> (a <=? b) = false.
Proof.
  destruct a as [| | p |], b as [| | q |]; simpl; try congruence.
  intros H. apply ltb_Fin in H. apply leb_Fin_false. exact H.
Qed.

Lemma num_eqb_leb (a b : num) : num_eqb a b = true -> (a <=? b) = true.
Proof.
  destruct a as [| | p |], b as [| | q |]; simpl; try congruence.
  intros H. apply Qeq_bool_iff in H. apply leb_Fin. rewrite H. apply Qle_refl.
Qed.

(** The separation of two angles of [[0, 360)] is symmetric and lies in
    [[0, 180]]. *)
Lemma getAnglesSub_range (a b : Q) :
  (0 <= a < 360)%Q -> (0 <= b < 360)%Q ->
  exists d,
    getAnglesSub (Fin a) (Fin b) = Fin d
    /\ (0 <= d <= 180)%Q
    /\ getAnglesSub (Fin b) (Fin a) == Fin d.
Proof.
  intros Ha Hb. eexists. split; [reflexivity|].
  change (inject_Z 360) with 360%Q.
  split.
  - destruct (Q.min_spec (Qabs (a + - b)) (360 + - Qabs (a + - b))) as [[? ->] | [? ->]];
      revert H; apply Qabs_case; intros; lra.
  - apply Qeq_bool_iff.
    destruct (Q.min_spec (Qabs (a + - b)) (360 + - Qabs (a + - b))) as [[? ->] | [? ->]];
      destruct (Q.min_spec (Qabs (b + - a)) (360 + - Qabs (b + - a))) as [[? ->] | [? ->]];
      revert H H0; apply Qabs_case; intros ?; apply Qabs_case; intros; lra.
Qed.

Section PointerFacts.

Variable getV2Angle : Vector2 -> num.
Variable radiansToDegrees : num -> num.
Variable convertRange : num -> num -> num -> num -> num -> num.
Variable ellipseMovement : Vector2 -> num -> num -> num -> Vector2.
Variable Math_PI : num.

Local Abbreviation position :=
  (getPointerPosition radiansToDegrees getV2Angle convertRange ellipseMovement Math_PI).
Local Abbreviation degreesOf := (inputDegrees getV2Angle radiansToDegrees Math_PI).

Lemma getPointerPosition_unfold (svg : SVGSVGElement)
    (absoluteMouse center svgRadii : Vector2) (startDeg endDeg : num)
    (startPoint endPoint : Vector2) :
  position svg absoluteMouse center svgRadii startDeg endDeg startPoint endPoint
  = let degrees := degreesOf svg absoluteMouse center in
    if isAngleInArc startDeg endDeg degrees then
      let angle := getV2Angle
                     (v2Sub (fst absoluteMouse - left (getBoundingClientRect svg),
                             snd absoluteMouse - top (getBoundingClientRect svg))
                            center) in
      ellipseMovement center
        (convertRange (if angle <? 0%Z then angle + 2%Z * Math_PI else angle)
           0%Z (Math_PI * 2%Z) 0%Z Math_PI)
        (fst svgRadii) (snd svgRadii)
    else if getAnglesSub degrees startDeg <=? getAnglesSub degrees endDeg
         then startPoint else endPoint.
Proof.
  unfold getPointerPosition, inputDegrees. destruct absoluteMouse as [clientX clientY].
  cbn [fst snd]. cbv zeta.
  destruct (isAngleInArc startDeg endDeg _); reflexivity.
Qed.

(** C8. When the angle derived from the input lies outside the arc,
    [getPointerPosition] answers the arc's start point or its end point,
    the one whose minimal angular separation from that angle is the
    smaller, and the start point when the two separations are equal. *)
Theorem getPointerPosition_outside_arc_nearer_end :
  forall (svg : SVGSVGElement) (absoluteMouse center svgRadii : Vector2)
         (startDeg endDeg : num) (startPoint endPoint : Vector2),
    let degrees := degreesOf svg absoluteMouse center in
    let sep1 := getAnglesSub degrees startDeg in
    let sep2 := getAnglesSub degrees endDeg in
    let result :=
      position svg absoluteMouse center svgRadii startDeg endDeg startPoint endPoint in
    isAngleInArc startDeg endDeg degrees = false ->
    result = (if sep1 <=? sep2 then startPoint else endPoint)
    /\ (sep1 < sep2 -> result = startPoint)
    /\ (sep2 < sep1 -> result = endPoint)
    /\ (sep1 == sep2 -> result = startPoint).
Proof.
  intros svg mouse center radii s e sp ep degrees sep1 sep2 result Hout.
  assert (Hres : result = if sep1 <=? sep2 then sp else ep).
  { subst result. rewrite getPointerPosition_unfold. cbv zeta.
    fold degrees. rewrite Hout. reflexivity. }
  split; [exact Hres|]. rewrite Hres. split; [|split].
  - intros Hlt. rewrite (ltb_leb _ _ Hlt). reflexivity.
  - intros Hlt. rewrite (ltb_leb_false _ _ Hlt). reflexivity.
  - intros Heq. rewrite (num_eqb_leb _ _ Heq). reflexivity.
Qed.

End PointerFacts.

Lemma getPointerPosition_outside_arc_witness :
  let position :=
    getPointerPosition Sample.radiansToDegrees Sample.getV2Angle Sample.convertRange
      Sample.ellipseMovement Sample.Math_PI svgAtOrigin in
  let degrees :=
    inputDegrees Sample.getV2Angle Sample.radiansToDegrees Sample.Math_PI svgAtOrigin
      (ofZ 0, ofZ 100) (ofZ 100, ofZ 100) in
  degrees == 180%Z
  /\ isAngleInArc 0%Z 90%Z degrees = false
  /\ getAnglesSub degrees 90%Z < getAnglesSub degrees 0%Z
  /\ position (ofZ 0, ofZ 100) (ofZ 100, ofZ 100) (ofZ 100, ofZ 100) 0%Z 90%Z
       (ofZ 200, ofZ 100) (ofZ 100, ofZ 200) = (ofZ 100, ofZ 200)
  /\ isAngleInArc 270%Z 90%Z degrees = false
  /\ getAnglesSub degrees 270%Z == getAnglesSub degrees 90%Z
  /\ position (ofZ 0, ofZ 100) (ofZ 100, ofZ 100) (ofZ 100, ofZ 100) 270%Z 90%Z
       (ofZ 100, ofZ 0) (ofZ 100, ofZ 200) = (ofZ 100, ofZ 0).
Proof.
  intros position degrees.
  assert (H1 : isAngleInArc 0%Z 90%Z degrees = false) by (vm_compute; reflexivity).
  assert (H2 : getAnglesSub degrees 90%Z < getAnglesSub degrees 0%Z)
    by (vm_compute; reflexivity).
  assert (H3 : isAngleInArc 270%Z 90%Z degrees = false) by (vm_compute; reflexivity).
  assert (H4 : getAnglesSub degrees 270%Z == getAnglesSub degrees 90%Z)
    by (vm_compute; reflexivity).
  split; [vm_compute; reflexivity|].
  split; [exact H1|]. split; [exact H2|].
  split.
  { exact (proj1 (proj2 (proj2
      (getPointerPosition_outside_arc_nearer_end
         Sample.getV2Angle Sample.radiansToDegrees Sample.convertRange
         Sample.ellipseMovement Sample.Math_PI svgAtOrigin
         (ofZ 0, ofZ 100) (ofZ 100, ofZ 100) (ofZ 100, ofZ 100) 0%Z 90%Z
         (ofZ 200, ofZ 100) (ofZ 100, ofZ 200) H1))) H2). }
  split; [exact H3|]. split; [exact H4|].
  exact (proj2 (proj2 (proj2
    (getPointerPosition_outside_arc_nearer_end
       Sample.getV2Angle Sample.radiansToDegrees Sample.convertRange
       Sample.ellipseMovement Sample.Math_PI svgAtOrigin
       (ofZ 0, ofZ 100) (ofZ 100, ofZ 100) (ofZ 100, ofZ 100) 270%Z 90%Z
       (ofZ 100, ofZ 0) (ofZ 100, ofZ 200) H3))) H4).
Defined.

(** * Further properties of the code *)

(** ** The canvas: [getSVGSize] and [getSVGCenter] *)

Lemma Math_max_zero_nonpos (x : Q) :
  (x <= 0)%Q -> Math_max 0%Z (Fin x) = 0%Z.
Proof.
  intros Hx. unfold Math_max, ofZ. f_equal.
  unfold Qmax, GenericMinMax.gmax. change (inject_Z 0) with 0%Q.
  destruct (Qcompare_spec 0 x) as [H | H | H]; try reflexivity.
  exfalso. lra.
Qed.

Section CanvasFurther.

Variable setDecimalPlaces : num -> num -> num.

(** X1. With radii of the ellipse that are not negative, each side of the
    canvas is at least the diameter of the ellipse plus the stroke width.
    When the diameter of the pointer does not exceed the stroke width on
    either axis, the pointer plays no part: the size is
    [[rx*2 + strokeWidth + 0, ry*2 + strokeWidth + 0]], the centre rounds
    its halves, and two such pointers give the same size and centre. *)
Theorem getSVGSize_pointer_within_stroke :
  forall (rx ry px py s : Q),
    ((0 <= rx)%Q ->
       Fin rx * 2%Z + Fin s <= fst (getSVGSize (Fin rx, Fin ry) (Fin px, Fin py) (Fin s)))
    /\ ((0 <= ry)%Q ->
       Fin ry * 2%Z + Fin s <= snd (getSVGSize (Fin rx, Fin ry) (Fin px, Fin py) (Fin s)))
    /\ ((px * 2 <= s)%Q -> (py * 2 <= s)%Q ->
        getSVGSize (Fin rx, Fin ry) (Fin px, Fin py) (Fin s)
        = (Fin rx * 2%Z + Fin s + 0%Z, Fin ry * 2%Z + Fin s + 0%Z)
        /\ getSVGCenter setDecimalPlaces (Fin rx, Fin ry) (Fin px, Fin py) (Fin s)
           = (setDecimalPlaces ((Fin rx * 2%Z + Fin s + 0%Z) / 2%Z) 2%Z,
              setDecimalPlaces ((Fin ry * 2%Z + Fin s + 0%Z) / 2%Z) 2%Z)
        /\ forall px' py' : Q,
             (px' * 2 <= s)%Q -> (py' * 2 <= s)%Q ->
             getSVGSize (Fin rx, Fin ry) (Fin px', Fin py') (Fin s)
             = getSVGSize (Fin rx, Fin ry) (Fin px, Fin py) (Fin s)
             /\ getSVGCenter setDecimalPlaces (Fin rx, Fin ry) (Fin px', Fin py') (Fin s)
                = getSVGCenter setDecimalPlaces (Fin rx, Fin ry) (Fin px, Fin py) (Fin s)).
Proof.
  intros rx ry px py s.
  assert (Hsmall : forall qx qy : Q,
            (qx * 2 <= s)%Q -> (qy * 2 <= s)%Q ->
            getSVGSize (Fin rx, Fin ry) (Fin qx, Fin qy) (Fin s)
            = (Fin rx * 2%Z + Fin s + 0%Z, Fin ry * 2%Z + Fin s + 0%Z)).
  { intros qx qy Hx Hy. unfold getSVGSize.
    change (Fin qx * 2%Z - Fin s) with (Fin (qx * inject_Z 2 + - s)).
    change (Fin qy * 2%Z - Fin s) with (Fin (qy * inject_Z 2 + - s)).
    change (inject_Z 2) with 2%Q.
    rewrite !Math_max_zero_nonpos by lra. reflexivity. }
  split; [|split].
  - intros _. destruct (getSVGSize_finite rx ry px py s) as (w & h & -> & Hw & _).
    cbn [fst]. apply leb_Fin. rewrite Hw. unfold svgExtent.
    change (inject_Z 2) with 2%Q. pose proof (Q.le_max_l 0 (2 * px - s)). lra.
  - intros _. destruct (getSVGSize_finite rx ry px py s) as (w & h & -> & _ & Hh).
    cbn [snd]. apply leb_Fin. rewrite Hh. unfold svgExtent.
    change (inject_Z 2) with 2%Q. pose proof (Q.le_max_l 0 (2 * py - s)). lra.
  - intros Hx Hy. split; [apply Hsmall; assumption|]. split.
    + unfold getSVGCenter. rewrite (Hsmall px py Hx Hy). reflexivity.
    + intros px' py' Hx' Hy'. unfold getSVGCenter.
      rewrite (Hsmall px py Hx Hy), (Hsmall px' py' Hx' Hy'). split; reflexivity.
Qed.

End CanvasFurther.

Lemma getSVGSize_pointer_within_stroke_witness :
  (0 <= 50)%Q /\ (4 * 2 <= 10)%Q /\ (5 * 2 <= 10)%Q
  /\ getSVGSize (Fin 50, Fin 40) (Fin 4, Fin 5) (Fin 10) = (Fin (110 # 1), Fin (90 # 1))
  /\ Fin 50 * 2%Z + Fin 10 <= fst (getSVGSize (Fin 50, Fin 40) (Fin 4, Fin 5) (Fin 10))
  /\ getSVGSize (Fin 50, Fin 40) (Fin 4, Fin 5) (Fin 10)
     = (Fin 50 * 2%Z + Fin 10 + 0%Z, Fin 40 * 2%Z + Fin 10 + 0%Z).
Proof.
  assert (H1 : (0 <= 50)%Q) by (apply Qle_bool_imp_le; reflexivity).
  assert (H2 : (4 * 2 <= 10)%Q) by (apply Qle_bool_imp_le; reflexivity).
  assert (H3 : (5 * 2 <= 10)%Q) by (apply Qle_bool_imp_le; reflexivity).
  split; [exact H1|]. split; [exact H2|]. split; [exact H3|]. split; [reflexivity|].
  destruct (getSVGSize_pointer_within_stroke SampleGeometry.setDecimalPlaces 50 40 4 5 10)
    as (Hlow & _ & Hsmall).
  split; [exact (Hlow H1) | exact (proj1 (Hsmall H2 H3))].
Defined.

(** ** The segment: [getEllipseSegment] *)

Section SegmentFurther.

Variable setDecimalPlaces : num -> num -> num.
Variable degreesToRadians : num -> num.
Variable polarToCartesian : Vector2 -> Vector2 -> num -> Vector2.

Local Abbreviation segment :=
  (getEllipseSegment setDecimalPlaces degreesToRadians polarToCartesian).
Local Abbreviation centerOf := (getSVGCenter setDecimalPlaces).

(** X3. An arc of no length has its two end points at the same place,
    whatever the angle; at a finite angle its flag is 0. *)
Theorem getEllipseSegment_zero_length :
  forall (deg : num) (svgRadii pointerRadii : Vector2) (strokeWidth : num),
    sliderEndPoint (segment deg deg svgRadii pointerRadii strokeWidth)
    = sliderStartPoint (segment deg deg svgRadii pointerRadii strokeWidth)
    /\ (isFinite deg = true ->
        largeArcFlag (segment deg deg svgRadii pointerRadii strokeWidth) = 0%Z).
Proof.
  intros deg radii pr sw. unfold getEllipseSegment.
  cbn [sliderEndPoint sliderStartPoint largeArcFlag]. split.
  - unfold gtb. rewrite ltb_irrefl. reflexivity.
  - intros Hfin. destruct deg as [| | q |]; try discriminate.
    assert (Hle : (Fin q - Fin q <=? 180%Z) = true).
    { apply leb_Fin. change (inject_Z 180) with 180%Q. lra. }
    rewrite Hle. reflexivity.
Qed.

(** X4. When the start or the end angle is NaN the flag is 1, and the end
    point is placed at the end angle as given: no 360 is added. *)
Theorem getEllipseSegment_NaN_angle :
  forall (startDeg endDeg : num) (svgRadii pointerRadii : Vector2) (strokeWidth : num),
    isNaN startDeg = true \/ isNaN endDeg = true ->
    largeArcFlag (segment startDeg endDeg svgRadii pointerRadii strokeWidth) = 1%Z
    /\ sliderEndPoint (segment startDeg endDeg svgRadii pointerRadii strokeWidth)
       = polarToCartesian (centerOf svgRadii pointerRadii strokeWidth) svgRadii
           (degreesToRadians endDeg).
Proof.
  intros s e radii pr sw Hnan. unfold getEllipseSegment.
  cbn [sliderEndPoint largeArcFlag].
  assert (Hle : (e - s <=? 180%Z) = false).
  { destruct Hnan as [H | H]; destruct s, e; try discriminate; reflexivity. }
  assert (Hgt : (s >? e) = false).
  { destruct Hnan as [H | H]; destruct s, e; try discriminate; reflexivity. }
  rewrite Hle, Hgt. split; reflexivity.
Qed.

(** X5. At finite angles the function adds a full turn to the end angle
    exactly when the end is below the start, so the end point is always
    placed at an angle that is not below the start and less than a full
    turn above the end given. *)
Theorem getEllipseSegment_end_angle_not_below_start :
  forall (s e : Q) (svgRadii pointerRadii : Vector2) (strokeWidth : num),
  exists e',
    sliderEndPoint (segment (Fin s) (Fin e) svgRadii pointerRadii strokeWidth)
    = polarToCartesian (centerOf svgRadii pointerRadii strokeWidth) svgRadii
        (degreesToRadians (Fin e'))
    /\ ((s <= e)%Q -> e' = e)
    /\ ((e < s)%Q -> (e' == e + 360)%Q)
    /\ ((s - 360 <= e)%Q -> (s <= e')%Q).
Proof.
  intros s e radii pr sw. unfold getEllipseSegment. cbn [sliderEndPoint].
  destruct (Fin s >? Fin e) eqn:Hgt.
  - apply gtb_Fin in Hgt. exists (e + inject_Z 360)%Q.
    split; [reflexivity|]. change (inject_Z 360) with 360%Q.
    split; [intros ?; lra|]. split; [intros _; reflexivity | intros ?; lra].
  - unfold gtb in Hgt. apply ltb_Fin_false in Hgt. exists e.
    split; [reflexivity|].
    split; [reflexivity|]. split; intros ?; lra.
Qed.

End SegmentFurther.

Lemma getEllipseSegment_zero_length_witness :
  isFinite 90%Z = true
  /\ largeArcFlag
       (getEllipseSegment SampleGeometry.setDecimalPlaces
          SampleGeometry.degreesToRadians SampleGeometry.polarToCartesian
          90%Z 90%Z (ofZ 100, ofZ 80) (ofZ 10, ofZ 10) 4%Z) = 0%Z.
Proof.
  split; [reflexivity|].
  apply (proj2 (getEllipseSegment_zero_length SampleGeometry.setDecimalPlaces
                  SampleGeometry.degreesToRadians SampleGeometry.polarToCartesian
                  90%Z (ofZ 100, ofZ 80) (ofZ 10, ofZ 10) 4%Z)).
  reflexivity.
Defined.

Lemma getEllipseSegment_NaN_angle_witness :
  (isNaN NaN = true \/ isNaN 90%Z = true)
  /\ largeArcFlag
       (getEllipseSegment SampleGeometry.setDecimalPlaces
          SampleGeometry.degreesToRadians SampleGeometry.polarToCartesian
          NaN 90%Z (ofZ 100, ofZ 80) (ofZ 10, ofZ 10) 4%Z) = 1%Z.
Proof.
  split; [left; reflexivity|].
  apply (proj1 (getEllipseSegment_NaN_angle SampleGeometry.setDecimalPlaces
                  SampleGeometry.degreesToRadians SampleGeometry.polarToCartesian
                  NaN 90%Z (ofZ 100, ofZ 80) (ofZ 10, ofZ 10) 4%Z
                  (or_introl eq_refl))).
Defined.

Lemma getEllipseSegment_end_angle_witness :
  (350 - 360 <= 10)%Q
  /\ exists e',
       sliderEndPoint
         (getEllipseSegment SampleGeometry.setDecimalPlaces
            SampleGeometry.degreesToRadians SampleGeometry.polarToCartesian
            (Fin 350) (Fin 10) (ofZ 100, ofZ 80) (ofZ 10, ofZ 10) 4%Z)
       = SampleGeometry.polarToCartesian
           (getSVGCenter SampleGeometry.setDecimalPlaces
              (ofZ 100, ofZ 80) (ofZ 10, ofZ 10) 4%Z)
           (ofZ 100, ofZ 80) (SampleGeometry.degreesToRadians (Fin e'))
       /\ (e' == 370)%Q /\ (350 <= e')%Q.
Proof.
  assert (H1 : (350 - 360 <= 10)%Q) by (apply Qle_bool_imp_le; reflexivity).
  assert (H2 : (10 < 350)%Q) by reflexivity.
  split; [exact H1|].
  destruct (getEllipseSegment_end_angle_not_below_start
              SampleGeometry.setDecimalPlaces
              SampleGeometry.degreesToRadians SampleGeometry.polarToCartesian
              350 10 (ofZ 100, ofZ 80) (ofZ 10, ofZ 10) 4%Z)
    as (e' & Hend & _ & Hwrap & Hge).
  exists e'. split; [exact Hend|]. split; [|exact (Hge H1)].
  rewrite (Hwrap H2). reflexivity.
Defined.

Lemma getEllipseSegment_flag_without_wrap_witness :
  (0 <= 10)%Q /\ (10 <= 200)%Q /\ (200 < 360)%Q
  /\ (largeArcFlag
        (getEllipseSegment SampleGeometry.setDecimalPlaces
           SampleGeometry.degreesToRadians SampleGeometry.polarToCartesian
           (Fin 10) (Fin 200) (ofZ 100, ofZ 80) (ofZ 10, ofZ 10) 4%Z) = 1%Z
      <-> (180 < normalizedSpan 10 200)%Q).
Proof.
  assert (H1 : (0 <= 10)%Q) by (apply Qle_bool_imp_le; reflexivity).
  assert (H2 : (10 <= 200)%Q) by (apply Qle_bool_imp_le; reflexivity).
  assert (H3 : (200 < 360)%Q) by reflexivity.
  split; [exact H1|]. split; [exact H2|]. split; [exact H3|].
  exact (getEllipseSegment_flag_without_wrap SampleGeometry.setDecimalPlaces
           SampleGeometry.degreesToRadians SampleGeometry.polarToCartesian
           10 200 (ofZ 100, ofZ 80) (ofZ 10, ofZ 10) 4%Z H1 H2 H3).
Defined.

Lemma getEllipseSegment_flag_on_wrapped_arc_witness :
  (0 <= 10)%Q /\ (10 < 100)%Q /\ (100 < 360)%Q
  /\ largeArcFlag
       (getEllipseSegment SampleGeometry.setDecimalPlaces
          SampleGeometry.degreesToRadians SampleGeometry.polarToCartesian
          (Fin 100) (Fin 10) (ofZ 100, ofZ 80) (ofZ 10, ofZ 10) 4%Z) = 0%Z
  /\ ((180 < normalizedSpan 100 10)%Q <-> (100 - 10 < 180)%Q).
Proof.
  assert (H1 : (0 <= 10)%Q) by (apply Qle_bool_imp_le; reflexivity).
  assert (H2 : (10 < 100)%Q) by reflexivity.
  assert (H3 : (100 < 360)%Q) by reflexivity.
  split; [exact H1|]. split; [exact H2|]. split; [exact H3|].
  exact (getEllipseSegment_flag_on_wrapped_arc SampleGeometry.setDecimalPlaces
           SampleGeometry.degreesToRadians SampleGeometry.polarToCartesian
           100 10 (ofZ 100, ofZ 80) (ofZ 10, ofZ 10) 4%Z H1 H2 H3).
Defined.

(** ** The pointer: [getPointerPosition] *)

Section PointerFurther.

Variable getV2Angle : Vector2 -> num.
Variable radiansToDegrees : num -> num.
Variable convertRange : num -> num -> num -> num -> num -> num.
Variable ellipseMovement : Vector2 -> num -> num -> num -> Vector2.
Variable Math_PI : num.

Local Abbreviation position :=
  (getPointerPosition radiansToDegrees getV2Angle convertRange ellipseMovement Math_PI).
Local Abbreviation degreesOf := (inputDegrees getV2Angle radiansToDegrees Math_PI).
Local Abbreviation angleOf := (inputAngle getV2Angle Math_PI).

Lemma inputDegrees_inputAngle (svg : SVGSVGElement) (absoluteMouse center : Vector2) :
  degreesOf svg absoluteMouse center = radiansToDegrees (angleOf svg absoluteMouse center).
Proof. reflexivity. Qed.

(** X7. When pi is a positive finite number and the angle of the vector
    lies between minus pi and pi, the angle the function goes on with is
    finite, not negative and at most two pi: it is the angle of the vector
    when that is not negative, and a full turn more otherwise. *)
Theorem getPointerPosition_angle_in_full_turn :
  forall (svg : SVGSVGElement) (absoluteMouse center : Vector2) (pi a : Q),
    Math_PI = Fin pi ->
    (0 < pi)%Q ->
    getV2Angle
      (v2Sub (fst absoluteMouse - left (getBoundingClientRect svg),
              snd absoluteMouse - top (getBoundingClientRect svg)) center)
    = Fin a ->
    (- pi <= a)%Q -> (a <= pi)%Q ->
    exists t,
      angleOf svg absoluteMouse center = Fin t
      /\ (0 <= t)%Q /\ (t <= 2 * pi)%Q
      /\ ((0 <= a)%Q -> t = a)
      /\ ((a < 0)%Q -> (t == a + 2 * pi)%Q).
Proof.
  intros svg mouse center pi a Hpi Hpos Ha Hlo Hhi.
  unfold inputAngle. cbv zeta. rewrite Ha, Hpi.
  destruct (Fin a <? 0%Z) eqn:Hneg.
  - apply ltb_Fin in Hneg. change (inject_Z 0) with 0%Q in Hneg.
    exists (a + inject_Z 2 * pi)%Q. split; [reflexivity|].
    change (inject_Z 2) with 2%Q.
    split; [lra|]. split; [lra|]. split; [intros ?; lra | intros _; reflexivity].
  - apply ltb_Fin_false in Hneg. change (inject_Z 0) with 0%Q in Hneg.
    exists a. split; [reflexivity|].
    split; [lra|]. split; [lra|]. split; [reflexivity | intros ?; lra].
Qed.

End PointerFurther.

Lemma getPointerPosition_angle_in_full_turn_witness :
  exists t,
    inputAngle Sample.getV2Angle Sample.Math_PI svgAtOrigin
      (ofZ 100, ofZ 0) (ofZ 100, ofZ 100) = Fin t
    /\ (0 <= t)%Q /\ (t <= 2 * (355 # 113))%Q /\ (t == 3 * (355 # 113) / 2)%Q.
Proof.
  set (v := v2Sub (fst (ofZ 100, ofZ 0) - left (getBoundingClientRect svgAtOrigin),
                   snd (ofZ 100, ofZ 0) - top (getBoundingClientRect svgAtOrigin))
                  (ofZ 100, ofZ 100)).
  set (a := match Sample.getV2Angle v with Fin q => q | _ => 0%Q end).
  assert (Hpos : (0 < 355 # 113)%Q) by reflexivity.
  assert (Ha : Sample.getV2Angle v = Fin a) by reflexivity.
  assert (Hlo : (- (355 # 113) <= a)%Q) by (apply Qle_bool_imp_le; reflexivity).
  assert (Hhi : (a <= 355 # 113)%Q) by (apply Qle_bool_imp_le; reflexivity).
  assert (Hneg : (a < 0)%Q) by reflexivity.
  assert (Hval : (a + 2 * (355 # 113) == 3 * (355 # 113) / 2)%Q) by reflexivity.
  destruct (getPointerPosition_angle_in_full_turn Sample.getV2Angle Sample.Math_PI
              svgAtOrigin (ofZ 100, ofZ 0) (ofZ 100, ofZ 100)
              (355 # 113) a eq_refl Hpos Ha Hlo Hhi)
    as (t & Ht & H0 & H2 & _ & Hwrap).
  exists t. split; [exact Ht|]. split; [exact H0|]. split; [exact H2|].
  rewrite (Hwrap Hneg). exact Hval.
Defined.

(** ** The largest pointer: [getMaxPointer] *)


Lemma Qmax_assoc_eq (p q r : Q) : Qmax (Qmax p q) r = Qmax p (Qmax q r).
Proof.
  unfold Qmax, GenericMinMax.gmax.
  destruct (Qcompare_spec p q) as [Hpq | Hpq | Hpq];
    destruct (Qcompare_spec q r) as [Hqr | Hqr | Hqr];
    try destruct (Qcompare_spec p r) as [Hpr | Hpr | Hpr];
    try destruct (Qcompare_spec p q) as [Hpq' | Hpq' | Hpq'];
    try reflexivity; exfalso; lra.
Qed.

Lemma Math_max_assoc (a b c : num) :
  Math_max (Math_max a b) c = Math_max a (Math_max b c).
Proof.
  destruct a as [| | p |], b as [| | q |], c as [| | r |]; try reflexivity.
  simpl. f_equal. apply Qmax_assoc_eq.
Qed.

Lemma Math_max_NegInf_r (a : num) : Math_max a NegInf = a.
Proof. destruct a; reflexivity. Qed.

Lemma maxFrom_start (l : list num) (a : num) :
  maxFrom l a = Math_max a (maxFrom l NegInf).
Proof.
  revert a. induction l as [|x r IH]; intros a.
  - simpl. symmetry. apply Math_max_NegInf_r.
  - unfold maxFrom in *. cbn [fold_left].
    rewrite (IH (Math_max a x)), (IH (Math_max NegInf x)).
    rewrite Math_max_NegInf_l. apply Math_max_assoc.
Qed.

Lemma maxFrom_app (l1 l2 : list num) (a : num) :
  maxFrom (l1 ++ l2) a = Math_max (maxFrom l1 a) (maxFrom l2 NegInf).
Proof.
  unfold maxFrom. rewrite fold_left_app. apply maxFrom_start.
Qed.

Lemma maxFrom_NaN_start (l : list num) : maxFrom l NaN = NaN.
Proof.
  induction l as [|x r IH]; [reflexivity|].
  unfold maxFrom in *. cbn [fold_left]. exact IH.
Qed.

Lemma maxFrom_NaN_in (l : list num) (a : num) :
  In NaN l -> maxFrom l a = NaN.
Proof.
  revert a. induction l as [|x r IH]; intros a Hin; [destruct Hin|].
  unfold maxFrom in *. cbn [fold_left]. destruct Hin as [-> | Hin].
  - replace (Math_max a NaN) with NaN by (destruct a; reflexivity).
    apply maxFrom_NaN_start.
  - apply IH, Hin.
Qed.

(** With finite radii, and a pointer at least, the two components are
    finite, bound the radii of every pointer and are radii of pointers. *)
Lemma getMaxPointer_finite_bound (pointers : list IStatePointer) :
  pointers <> [] -> finiteRadii pointers ->
  exists mx my,
    getMaxPointer pointers = (Fin mx, Fin my)
    /\ (forall p, In p pointers ->
          (fst (pointerRadii p) <=? Fin mx) = true
          /\ (snd (pointerRadii p) <=? Fin my) = true)
    /\ (exists p, In p pointers /\ fst (pointerRadii p) = Fin mx)
    /\ (exists p, In p pointers /\ snd (pointerRadii p) = Fin my).
Proof.
  intros Hne Hfin. unfold getMaxPointer. rewrite getMaxPointer_components.
  cbn [fst snd].
  assert (Hcomp : forall f : IStatePointer -> num,
            (forall p, In p pointers -> isFinite (f p) = true) ->
            exists m, maxFrom (map f pointers) NegInf = Fin m
                      /\ (forall p, In p pointers -> (f p <=? Fin m) = true)
                      /\ exists p, In p pointers /\ f p = Fin m).
  { intros f Hf.
    destruct (maxFrom_spec (map f pointers) NegInf) as (_ & Hub & Hone);
      try discriminate.
    { intros x Hx. apply in_map_iff in Hx. destruct Hx as (p & <- & Hp). auto. }
    destruct Hone as [Heq | Hin].
    - destruct pointers as [|p ps]; [congruence|].
      pose proof (Hub (f p) (or_introl eq_refl)) as Hle.
      rewrite Heq in Hle. pose proof (Hf p (or_introl eq_refl)) as Hp.
      destruct (f p); discriminate.
    - apply in_map_iff in Hin. destruct Hin as (p & Hp & Hin).
      pose proof (Hf p Hin) as Hfp. rewrite Hp in Hfp.
      destruct (maxFrom (map f pointers) NegInf) as [| | m |] eqn:Hm;
        try discriminate.
      exists m. split; [reflexivity|]. split.
      + intros p' Hp'. apply Hub. apply in_map. exact Hp'.
      + exists p. split; assumption. }
  destruct (Hcomp (fun p => fst (pointerRadii p))) as (mx & Hmx & Hbx & Hax).
  { intros p Hp. apply (Hfin p Hp). }
  destruct (Hcomp (fun p => snd (pointerRadii p))) as (my & Hmy & Hby & Hay).
  { intros p Hp. apply (Hfin p Hp). }
  exists mx, my. rewrite Hmx, Hmy. split; [reflexivity|].
  split; [|split; assumption].
  intros p Hp. split; [apply Hbx, Hp | apply Hby, Hp].
Qed.

(** X8. The largest pointer of two lists put end to end is, component by
    component, [Math.max] of the largest pointers of the two. *)
Theorem getMaxPointer_app :
  forall (pointers1 pointers2 : list IStatePointer),
    getMaxPointer (pointers1 ++ pointers2)
    = (Math_max (fst (getMaxPointer pointers1)) (fst (getMaxPointer pointers2)),
       Math_max (snd (getMaxPointer pointers1)) (snd (getMaxPointer pointers2))).
Proof.
  intros ps1 ps2. unfold getMaxPointer. rewrite !getMaxPointer_components.
  cbn [fst snd]. rewrite !map_app, !maxFrom_app. reflexivity.
Qed.

(** X9. One pointer with a NaN radius makes that component of the answer
    NaN, wherever it stands among the pointers. *)
Theorem getMaxPointer_NaN_radius :
  forall (pointers : list IStatePointer) (p : IStatePointer),
    In p pointers ->
    (fst (pointerRadii p) = NaN -> fst (getMaxPointer pointers) = NaN)
    /\ (snd (pointerRadii p) = NaN -> snd (getMaxPointer pointers) = NaN).
Proof.
  intros ps p Hp. unfold getMaxPointer. rewrite getMaxPointer_components.
  cbn [fst snd]. split; intros Hnan; apply maxFrom_NaN_in; rewrite <- Hnan.
  - apply (in_map (fun p => fst (pointerRadii p))), Hp.
  - apply (in_map (fun p => snd (pointerRadii p))), Hp.
Qed.

(** X10. With finite radii the order of the pointers does not matter:
    two lists with the same pointers have numerically equal largest
    pointers. *)
Theorem getMaxPointer_permutation :
  forall (pointers pointers' : list IStatePointer),
    Permutation pointers pointers' ->
    finiteRadii pointers ->
    fst (getMaxPointer pointers) == fst (getMaxPointer pointers')
    /\ snd (getMaxPointer pointers) == snd (getMaxPointer pointers').
Proof.
  intros ps ps' Hperm Hfin.
  destruct ps as [|p0 ps0].
  - apply Permutation_nil in Hperm. subst ps'. split; reflexivity.
  - assert (Hne : p0 :: ps0 <> []) by discriminate.
    assert (Hne' : ps' <> []).
    { intros ->. apply Permutation_sym, Permutation_nil in Hperm. discriminate. }
    assert (Hfin' : finiteRadii ps').
    { intros p Hp. apply Hfin. eapply Permutation_in; [apply Permutation_sym|];
        eassumption. }
    destruct (getMaxPointer_finite_bound _ Hne Hfin)
      as (mx & my & -> & Hb & (px & Hpx & Hax) & (py & Hpy & Hay)).
    destruct (getMaxPointer_finite_bound _ Hne' Hfin')
      as (mx' & my' & -> & Hb' & (px' & Hpx' & Hax') & (py' & Hpy' & Hay')).
    cbn [fst snd]. unfold num_eq, num_eqb. split; apply Qeq_bool_iff, Qle_antisym.
    + pose proof (proj1 (Hb' px (Permutation_in _ Hperm Hpx))) as H.
      rewrite Hax in H. apply leb_Fin, H.
    + pose proof (proj1 (Hb px' (Permutation_in _ (Permutation_sym Hperm) Hpx'))) as H.
      rewrite Hax' in H. apply leb_Fin, H.
    + pose proof (proj2 (Hb' py (Permutation_in _ Hperm Hpy))) as H.
      rewrite Hay in H. apply leb_Fin, H.
    + pose proof (proj2 (Hb py' (Permutation_in _ (Permutation_sym Hperm) Hpy'))) as H.
      rewrite Hay' in H. apply leb_Fin, H.
Qed.

(** X11. The canvas computed from the largest pointer is at least the
    canvas any single pointer of the array would get: with finite radii
    and stroke width, and radii of the ellipse that are not negative,
    neither side is smaller. *)
Theorem getSVGSize_of_getMaxPointer_covers_every_pointer :
  forall (pointers : list IStatePointer) (p : IStatePointer) (rx ry s : Q),
    finiteRadii pointers ->
    In p pointers ->
    (0 <= rx)%Q -> (0 <= ry)%Q ->
    fst (getSVGSize (Fin rx, Fin ry) (pointerRadii p) (Fin s))
      <= fst (getSVGSize (Fin rx, Fin ry) (getMaxPointer pointers) (Fin s))
    /\ snd (getSVGSize (Fin rx, Fin ry) (pointerRadii p) (Fin s))
      <= snd (getSVGSize (Fin rx, Fin ry) (getMaxPointer pointers) (Fin s)).
Proof.
  intros ps p rx ry s Hfin Hp _ _.
  assert (Hne : ps <> []) by (intros ->; destruct Hp).
  destruct (getMaxPointer_finite_bound _ Hne Hfin) as (mx & my & -> & Hb & _).
  destruct (Hb p Hp) as [Hx Hy]. destruct (Hfin p Hp) as [Hfx Hfy].
  destruct (pointerRadii p) as [[| | px |] [| | py |]]; try discriminate.
  cbn [fst snd] in Hx, Hy. apply leb_Fin in Hx. apply leb_Fin in Hy.
  destruct (getSVGSize_finite rx ry px py s) as (w & h & -> & Hw & Hh).
  destruct (getSVGSize_finite rx ry mx my s) as (w' & h' & -> & Hw' & Hh').
  cbn [fst snd]. split; apply leb_Fin.
  - rewrite Hw, Hw'. apply svgExtent_mono; [assumption | apply Qle_refl].
  - rewrite Hh, Hh'. apply svgExtent_mono; [assumption | apply Qle_refl].
Qed.

Lemma getMaxPointer_NaN_radius_witness :
  In (mkStatePointer (NaN, ofZ 1) 0%Z "b" 1%Z "#000" false false false)
     [pointerOf 2 3; mkStatePointer (NaN, ofZ 1) 0%Z "b" 1%Z "#000" false false false;
      pointerOf 4 4]
  /\ getMaxPointer
       [pointerOf 2 3; mkStatePointer (NaN, ofZ 1) 0%Z "b" 1%Z "#000" false false false;
        pointerOf 4 4]
     = (NaN, ofZ 4)
  /\ fst (getMaxPointer
            [pointerOf 2 3;
             mkStatePointer (NaN, ofZ 1) 0%Z "b" 1%Z "#000" false false false;
             pointerOf 4 4]) = NaN.
Proof.
  assert (Hin : In (mkStatePointer (NaN, ofZ 1) 0%Z "b" 1%Z "#000" false false false)
                  [pointerOf 2 3;
                   mkStatePointer (NaN, ofZ 1) 0%Z "b" 1%Z "#000" false false false;
                   pointerOf 4 4]) by (right; left; reflexivity).
  split; [exact Hin|]. split; [reflexivity|].
  exact (proj1 (getMaxPointer_NaN_radius _ _ Hin) eq_refl).
Defined.

Lemma getMaxPointer_permutation_witness :
  Permutation [pointerOf 2 3; pointerOf 5 1; pointerOf 4 4]
              [pointerOf 5 1; pointerOf 2 3; pointerOf 4 4]
  /\ finiteRadii [pointerOf 2 3; pointerOf 5 1; pointerOf 4 4]
  /\ fst (getMaxPointer [pointerOf 2 3; pointerOf 5 1; pointerOf 4 4])
     == fst (getMaxPointer [pointerOf 5 1; pointerOf 2 3; pointerOf 4 4]).
Proof.
  assert (Hperm : Permutation [pointerOf 2 3; pointerOf 5 1; pointerOf 4 4]
                              [pointerOf 5 1; pointerOf 2 3; pointerOf 4 4])
    by apply perm_swap.
  assert (Hfin : finiteRadii [pointerOf 2 3; pointerOf 5 1; pointerOf 4 4]).
  { intros p [<- | [<- | [<- | []]]]; split; reflexivity. }
  split; [exact Hperm|]. split; [exact Hfin|].
  exact (proj1 (getMaxPointer_permutation _ _ Hperm Hfin)).
Defined.

Lemma getSVGSize_of_getMaxPointer_witness :
  finiteRadii [pointerOf 2 3; pointerOf 5 1; pointerOf 4 4]
  /\ In (pointerOf 2 3) [pointerOf 2 3; pointerOf 5 1; pointerOf 4 4]
  /\ (0 <= 50)%Q /\ (0 <= 40)%Q
  /\ getSVGSize (Fin 50, Fin 40) (pointerRadii (pointerOf 2 3)) (Fin 4)
     = (Fin (104 # 1), Fin (86 # 1))
  /\ getSVGSize (Fin 50, Fin 40)
       (getMaxPointer [pointerOf 2 3; pointerOf 5 1; pointerOf 4 4]) (Fin 4)
     = (Fin (110 # 1), Fin (88 # 1))
  /\ fst (getSVGSize (Fin 50, Fin 40) (pointerRadii (pointerOf 2 3)) (Fin 4))
     <= fst (getSVGSize (Fin 50, Fin 40)
               (getMaxPointer [pointerOf 2 3; pointerOf 5 1; pointerOf 4 4]) (Fin 4)).
Proof.
  assert (Hfin : finiteRadii [pointerOf 2 3; pointerOf 5 1; pointerOf 4 4]).
  { intros p [<- | [<- | [<- | []]]]; split; reflexivity. }
  assert (Hin : In (pointerOf 2 3) [pointerOf 2 3; pointerOf 5 1; pointerOf 4 4])
    by (left; reflexivity).
  assert (H1 : (0 <= 50)%Q) by (apply Qle_bool_imp_le; reflexivity).
  assert (H2 : (0 <= 40)%Q) by (apply Qle_bool_imp_le; reflexivity).
  split; [exact Hfin|]. split; [exact Hin|]. split; [exact H1|]. split; [exact H2|].
  split; [reflexivity|]. split; [reflexivity|].
  exact (proj1 (getSVGSize_of_getMaxPointer_covers_every_pointer
                  [pointerOf 2 3; pointerOf 5 1; pointerOf 4 4] (pointerOf 2 3)
                  50 40 4 Hfin Hin H1 H2)).
Defined.

(** ** The bounds: [getMinMax] *)

Lemma findIndexFrom_range {A : Type} (p : A -> bool) (l : list A) (i : Z) :
  findIndexFrom p l i = (-1)%Z
  \/ (i <= findIndexFrom p l i < i + Z.of_nat (List.length l))%Z.
Proof.
  revert i. induction l as [|x r IH]; intros i; simpl.
  - left. reflexivity.
  - destruct (p x).
    + right. lia.
    + destruct (IH (i + 1)%Z) as [H | H]; [left; exact H | right; lia].
Qed.

Lemma leb_ofZ (a b : Z) : (ofZ a <=? ofZ b) = true <-> (a <= b)%Z.
Proof.
  unfold ofZ. rewrite leb_Fin, <- Zle_Qle. reflexivity.
Qed.

Section RangeFurther.

Variable parseNumber : string -> option Q.
Variables MIN_VALUE_DEFAULT MAX_VALUE_DEFAULT : num.

Local Abbreviation minMax := (getMinMax parseNumber MIN_VALUE_DEFAULT MAX_VALUE_DEFAULT).
Local Abbreviation step := (getStep parseNumber).

(** X12. With an empty array of data the answer is [[0, -1]] whatever the
    bounds asked for: the second component is no position of the data and
    is below the first. *)
Theorem getMinMax_empty_data :
  forall (min max : value),
    minMax min max (Some []) = (ofZ 0, ofZ (-1))
    /\ ~ (fst (minMax min max (Some [])) <= snd (minMax min max (Some []))).
Proof.
  intros min max. split; [reflexivity|].
  cbn [getMinMax findIndex findIndexFrom fst snd]. intros H.
  apply leb_ofZ in H. simpl in H. lia.
Qed.

(** X13. With data that is not empty the two positions come out of order
    exactly when both bounds are found and [max] is first found before
    [min]; a bound that is not in the data never puts them out of order. *)
Theorem getMinMax_categorical_order :
  forall (min max : value) (data : list TDataItem),
    data <> [] ->
    (fst (minMax min max (Some data)) <= snd (minMax min max (Some data))
     <-> ~ (exists i j, firstMatch data min i /\ firstMatch data max j /\ (j < i)%nat))
    /\ (noMatch data min \/ noMatch data max ->
        fst (minMax min max (Some data)) <= snd (minMax min max (Some data))).
Proof.
  intros min max data Hne.
  assert (Hlen : (0 < List.length data)%nat).
  { destruct data; [congruence | simpl; lia]. }
  assert (Hfirst : forall v k, firstMatch data v k ->
            findIndex (fun item => strict_eq item v) data = Z.of_nat k).
  { intros v k (x & Hk & Hx & Hb). unfold findIndex.
    rewrite (findIndexFrom_first _ data 0 k x Hk Hx Hb). lia. }
  assert (Hnone : forall v, noMatch data v ->
            findIndex (fun item => strict_eq item v) data = (-1)%Z).
  { intros v Hno. apply findIndexFrom_none. exact Hno. }
  assert (Hmin : forall k, firstMatch data min k ->
            fst (minMax min max (Some data)) = ofZ (Z.of_nat k)).
  { intros k Hk. unfold getMinMax. cbn [fst]. rewrite (Hfirst _ _ Hk).
    destruct (Z.eqb_spec (Z.of_nat k) (-1)); [lia | reflexivity]. }
  assert (Hmin0 : noMatch data min -> fst (minMax min max (Some data)) = ofZ 0).
  { intros Hno. unfold getMinMax. cbn [fst]. rewrite (Hnone _ Hno). reflexivity. }
  assert (Hmax : forall k, firstMatch data max k ->
            snd (minMax min max (Some data)) = ofZ (Z.of_nat k)).
  { intros k Hk. unfold getMinMax. cbn [snd]. rewrite (Hfirst _ _ Hk).
    destruct (Z.eqb_spec (Z.of_nat k) (-1)); [lia | reflexivity]. }
  assert (Hmax0 : noMatch data max ->
            snd (minMax min max (Some data)) = ofZ (Z.of_nat (List.length data) - 1)).
  { intros Hno. unfold getMinMax. cbn [snd]. rewrite (Hnone _ Hno). reflexivity. }
  assert (Hmissing : noMatch data min \/ noMatch data max ->
            fst (minMax min max (Some data)) <= snd (minMax min max (Some data))).
  { intros [Hno | Hno].
    - rewrite (Hmin0 Hno).
      destruct (firstMatch_or_noMatch data max) as [[j Hj] | Hno'].
      + rewrite (Hmax j Hj). apply leb_ofZ. lia.
      + rewrite (Hmax0 Hno'). apply leb_ofZ. lia.
    - rewrite (Hmax0 Hno).
      destruct (firstMatch_or_noMatch data min) as [[i Hi] | Hno'].
      + rewrite (Hmin i Hi). apply leb_ofZ.
        pose proof (firstMatch_lt_length _ _ _ Hi). lia.
      + rewrite (Hmin0 Hno'). apply leb_ofZ. lia. }
  split; [|exact Hmissing].
  split.
  - intros Hle (i & j & Hi & Hj & Hji).
    rewrite (Hmin i Hi), (Hmax j Hj) in Hle. apply leb_ofZ in Hle. lia.
  - intros Hnot.
    destruct (firstMatch_or_noMatch data min) as [[i Hi] | Hno]; [|auto].
    destruct (firstMatch_or_noMatch data max) as [[j Hj] | Hno]; [|auto].
    rewrite (Hmin i Hi), (Hmax j Hj). apply leb_ofZ.
    destruct (Nat.lt_ge_cases j i) as [Hlt | Hge]; [|lia].
    exfalso. apply Hnot. exists i, j. auto.
Qed.

(** X14. Two finite numbers in order, equal ones included, are returned
    as they are, whatever the default constants. *)
Theorem getMinMax_numeric_valid_unchanged :
  forall (a b : Q),
    (a <= b)%Q ->
    getMinMax parseNumber MIN_VALUE_DEFAULT MAX_VALUE_DEFAULT
      (VNum (Fin a)) (VNum (Fin b)) None = (Fin a, Fin b).
Proof.
  intros a b Hab. rewrite getMinMax_numeric.
  change (getNumber parseNumber (VNum (Fin a)) MIN_VALUE_DEFAULT) with (Fin a).
  change (getNumber parseNumber (VNum (Fin b)) MAX_VALUE_DEFAULT) with (Fin b).
  assert (Hgt : (Fin a >? Fin b) = false).
  { unfold gtb. apply ltb_Fin_false. exact Hab. }
  rewrite Hgt. reflexivity.
Qed.

(** X15. Without data, and with finite default constants of which the
    maximum is not negative, resolving the bounds that [getMinMax]
    returned returns them again. *)
Theorem getMinMax_numeric_idempotent :
  forall (min max : value),
    isFinite MIN_VALUE_DEFAULT = true ->
    isFinite MAX_VALUE_DEFAULT = true ->
    0%Z <= MAX_VALUE_DEFAULT ->
    minMax (VNum (fst (minMax min max None))) (VNum (snd (minMax min max None))) None
    = minMax min max None.
Proof.
  intros min max Hmin Hmax Hpos.
  rewrite (getMinMax_numeric parseNumber MIN_VALUE_DEFAULT MAX_VALUE_DEFAULT min max).
  cbn [fst snd].
  pose proof (getNumber_finite parseNumber min _ Hmin) as Hm.
  pose proof (getNumber_finite parseNumber max _ Hmax) as HM.
  destruct (getNumber parseNumber min MIN_VALUE_DEFAULT) as [| | m |]; try discriminate.
  destruct (getNumber parseNumber max MAX_VALUE_DEFAULT) as [| | M |]; try discriminate.
  assert (Hsum : exists z, Fin m + MAX_VALUE_DEFAULT = Fin z /\ (m <= z)%Q).
  { pose proof (leb_add_nonneg m _ Hmax Hpos) as Hle. revert Hle.
    destruct MAX_VALUE_DEFAULT as [| | X |]; try discriminate. intros Hle.
    exists (m + X)%Q. split; [reflexivity | apply leb_Fin, Hle]. }
  destruct Hsum as (z & -> & Hz).
  destruct (Fin m >? Fin M) eqn:Hgt.
  - apply getMinMax_numeric_valid_unchanged. exact Hz.
  - unfold gtb in Hgt. apply ltb_Fin_false in Hgt.
    apply getMinMax_numeric_valid_unchanged. exact Hgt.
Qed.

End RangeFurther.

Lemma getMinMax_categorical_order_witness :
  [DStr "a"; DStr "b"; DStr "c"] <> []
  /\ ~ (fst (getMinMax Sample.parseNumber Sample.MIN_VALUE_DEFAULT
               Sample.MAX_VALUE_DEFAULT (VStr "b") (VStr "a")
               (Some [DStr "a"; DStr "b"; DStr "c"]))
        <= snd (getMinMax Sample.parseNumber Sample.MIN_VALUE_DEFAULT
                  Sample.MAX_VALUE_DEFAULT (VStr "b") (VStr "a")
                  (Some [DStr "a"; DStr "b"; DStr "c"])))
  /\ noMatch [DStr "a"; DStr "b"; DStr "c"] (VStr "z")
  /\ fst (getMinMax Sample.parseNumber Sample.MIN_VALUE_DEFAULT
            Sample.MAX_VALUE_DEFAULT (VStr "c") (VStr "z")
            (Some [DStr "a"; DStr "b"; DStr "c"]))
     <= snd (getMinMax Sample.parseNumber Sample.MIN_VALUE_DEFAULT
               Sample.MAX_VALUE_DEFAULT (VStr "c") (VStr "z")
               (Some [DStr "a"; DStr "b"; DStr "c"])).
Proof.
  assert (Hne : [DStr "a"; DStr "b"; DStr "c"] <> []) by discriminate.
  assert (Hb : firstMatch [DStr "a"; DStr "b"; DStr "c"] (VStr "b") 1).
  { exists (DStr "b"). repeat split.
    intros [|j] y Hj Hy; [injection Hy as <-; reflexivity | lia]. }
  assert (Ha : firstMatch [DStr "a"; DStr "b"; DStr "c"] (VStr "a") 0).
  { exists (DStr "a"). repeat split. intros j y Hj. lia. }
  assert (Hz : noMatch [DStr "a"; DStr "b"; DStr "c"] (VStr "z")).
  { intros x [<- | [<- | [<- | []]]]; reflexivity. }
  split; [exact Hne|]. split.
  - intros Hle.
    apply (proj1 (proj1 (getMinMax_categorical_order Sample.parseNumber
                           Sample.MIN_VALUE_DEFAULT Sample.MAX_VALUE_DEFAULT
                           (VStr "b") (VStr "a") _ Hne)) Hle).
    exists 1%nat, 0%nat. repeat split; [exact Hb | exact Ha | lia].
  - split; [exact Hz|].
    exact (proj2 (getMinMax_categorical_order Sample.parseNumber
                    Sample.MIN_VALUE_DEFAULT Sample.MAX_VALUE_DEFAULT
                    (VStr "c") (VStr "z") _ Hne) (or_intror Hz)).
Defined.

Lemma getMinMax_numeric_valid_unchanged_witness :
  (7 <= 7)%Q
  /\ getMinMax Sample.parseNumber Sample.MIN_VALUE_DEFAULT Sample.MAX_VALUE_DEFAULT
       (VNum (Fin 7)) (VNum (Fin 7)) None = (Fin 7, Fin 7).
Proof.
  assert (H : (7 <= 7)%Q) by (apply Qle_bool_imp_le; reflexivity).
  split; [exact H|].
  exact (getMinMax_numeric_valid_unchanged Sample.parseNumber
           Sample.MIN_VALUE_DEFAULT Sample.MAX_VALUE_DEFAULT 7 7 H).
Defined.

Lemma getMinMax_numeric_idempotent_witness :
  isFinite Sample.MIN_VALUE_DEFAULT = true
  /\ isFinite Sample.MAX_VALUE_DEFAULT = true
  /\ 0%Z <= Sample.MAX_VALUE_DEFAULT
  /\ getMinMax Sample.parseNumber Sample.MIN_VALUE_DEFAULT Sample.MAX_VALUE_DEFAULT
       (VNum 5%Z) (VNum 2%Z) None = (ofZ 5, Fin (105 # 1))
  /\ getMinMax Sample.parseNumber Sample.MIN_VALUE_DEFAULT Sample.MAX_VALUE_DEFAULT
       (VNum (fst (getMinMax Sample.parseNumber Sample.MIN_VALUE_DEFAULT
                     Sample.MAX_VALUE_DEFAULT (VNum 5%Z) (VNum 2%Z) None)))
       (VNum (snd (getMinMax Sample.parseNumber Sample.MIN_VALUE_DEFAULT
                     Sample.MAX_VALUE_DEFAULT (VNum 5%Z) (VNum 2%Z) None)))
       None
     = getMinMax Sample.parseNumber Sample.MIN_VALUE_DEFAULT Sample.MAX_VALUE_DEFAULT
         (VNum 5%Z) (VNum 2%Z) None.
Proof.
  split; [reflexivity|]. split; [reflexivity|]. split; [reflexivity|].
  split; [reflexivity|].
  apply (getMinMax_numeric_idempotent Sample.parseNumber
           Sample.MIN_VALUE_DEFAULT Sample.MAX_VALUE_DEFAULT (VNum 5%Z) (VNum 2%Z));
    reflexivity.
Defined.

(** ** The step: [getStep] *)

Lemma Qabs_sub_comm_eq (p q : Q) : Qabs (p + - q) = Qabs (q + - p).
Proof.
  destruct p as [pn pd], q as [qn qd]. unfold Qabs, Qplus, Qopp. cbn [Qnum Qden].
  f_equal.
  - replace (qn * Z.pos pd + - pn * Z.pos qd)%Z
      with (- (pn * Z.pos qd + - qn * Z.pos pd))%Z by ring.
    symmetry. apply Z.abs_opp.
  - apply Pos.mul_comm.
Qed.

Lemma Math_abs_sub_comm (a b : num) : Math_abs (a - b) = Math_abs (b - a).
Proof.
  destruct a as [| | p |], b as [| | q |]; try reflexivity.
  unfold sub, neg, add, Math_abs. f_equal. apply Qabs_sub_comm_eq.
Qed.

Lemma gtb_nonpos_abs (q : Q) (x : num) :
  (q <= 0)%Q -> (Fin q >? Math_abs x) = false.
Proof.
  intros Hq. unfold gtb. destruct x as [| | d |]; try reflexivity.
  unfold Math_abs. apply ltb_Fin_false.
  pose proof (Qabs_nonneg d). lra.
Qed.

Section StepFurther.

Variable parseNumber : string -> option Q.

Local Abbreviation step := (getStep parseNumber).

(** X16. The answer does not depend on which of the two bounds is given
    as [min] and which as [max]. *)
Theorem getStep_bounds_swapped :
  forall (userStep : TStep) (min max : num),
    step userStep min max = step userStep max min.
Proof.
  intros u min max. unfold getStep. rewrite (Math_abs_sub_comm max min).
  reflexivity.
Qed.

(** X17. Validating a validated step changes nothing. *)
Theorem getStep_idempotent :
  forall (userStep : TStep) (min max : num),
    step (step userStep min max) min max = step userStep min max.
Proof.
  intros u min max. destruct u as [f | n | |]; try reflexivity.
  destruct n as [| | q |]; try reflexivity.
  change (step (SNum (Fin q)) min max)
    with (if Fin q >? Math_abs (max - min) then SUndefined else SNum (Fin q)).
  destruct (Fin q >? Math_abs (max - min)) eqn:Hgt; [reflexivity|].
  change (step (SNum (Fin q)) min max)
    with (if Fin q >? Math_abs (max - min) then SUndefined else SNum (Fin q)).
  rewrite Hgt. reflexivity.
Qed.

(** X18. A number that [getStep] answers is the finite number it was
    given and does not exceed [|max - min|]; the answer is never null.
    Between finite bounds a finite step is kept exactly when it is at
    most the distance between them, so a step equal to the whole range is
    kept. *)
Theorem getStep_number_within_range :
  forall (userStep : TStep) (min max : num),
    step userStep min max <> SNull
    /\ (forall n, step userStep min max = SNum n ->
          userStep = SNum n /\ isFinite n = true
          /\ (n >? Math_abs (max - min)) = false)
    /\ (forall q a b : Q,
          step (SNum (Fin q)) (Fin a) (Fin b) = SNum (Fin q)
          <-> (q <= Qabs (b - a))%Q).
Proof.
  intros u min max. split; [|split].
  - destruct u as [f | n | |]; try discriminate.
    destruct n as [| | q |]; try discriminate.
    change (step (SNum (Fin q)) min max)
      with (if Fin q >? Math_abs (max - min) then SUndefined else SNum (Fin q)).
    destruct (Fin q >? Math_abs (max - min)); discriminate.
  - intros n Hn. destruct u as [f | k | |]; try discriminate.
    destruct k as [| | q |]; try discriminate.
    change (step (SNum (Fin q)) min max)
      with (if Fin q >? Math_abs (max - min) then SUndefined else SNum (Fin q)) in Hn.
    destruct (Fin q >? Math_abs (max - min)) eqn:Hgt; [discriminate|].
    injection Hn as <-. repeat split. exact Hgt.
  - intros q a b.
    change (step (SNum (Fin q)) (Fin a) (Fin b))
      with (if Fin q >? Fin (Qabs (b + - a)) then SUndefined else SNum (Fin q)).
    destruct (Fin q >? Fin (Qabs (b + - a))) eqn:Hgt.
    + apply gtb_Fin in Hgt. split; [discriminate|].
      intros Hle. exfalso. unfold Qminus in Hle. lra.
    + unfold gtb in Hgt. apply ltb_Fin_false in Hgt. split; [|reflexivity].
      intros _. exact Hgt.
Qed.

(** X19. A finite step that is zero or negative is never discarded,
    whatever the bounds; and when a bound is NaN no finite step is. *)
Theorem getStep_never_discards :
  forall (q : Q) (min max : num),
    ((q <= 0)%Q -> step (SNum (Fin q)) min max = SNum (Fin q))
    /\ (isNaN min = true \/ isNaN max = true ->
        step (SNum (Fin q)) min max = SNum (Fin q)).
Proof.
  intros q min max.
  change (step (SNum (Fin q)) min max)
    with (if Fin q >? Math_abs (max - min) then SUndefined else SNum (Fin q)).
  split.
  - intros Hq. rewrite (gtb_nonpos_abs q _ Hq). reflexivity.
  - intros Hnan.
    assert (Habs : Math_abs (max - min) = NaN).
    { destruct Hnan as [H | H]; destruct min, max; try discriminate; reflexivity. }
    rewrite Habs. reflexivity.
Qed.

End StepFurther.

Lemma getStep_number_within_range_witness :
  getStep Sample.parseNumber (SNum 10%Z) 0%Z 10%Z = SNum 10%Z
  /\ (10%Z >? Math_abs (10%Z - 0%Z)) = false
  /\ (inject_Z 10 <= Qabs (inject_Z 10 - inject_Z 0))%Q.
Proof.
  assert (H : getStep Sample.parseNumber (SNum 10%Z) 0%Z 10%Z = SNum 10%Z)
    by reflexivity.
  destruct (getStep_number_within_range Sample.parseNumber (SNum 10%Z) 0%Z 10%Z)
    as (_ & Hnum & Hiff).
  split; [exact H|]. split.
  - exact (proj2 (proj2 (Hnum _ H))).
  - exact (proj1 (Hiff (inject_Z 10) (inject_Z 0) (inject_Z 10)) H).
Defined.

Lemma getStep_never_discards_witness :
  (- (3) <= 0)%Q
  /\ getStep Sample.parseNumber (SNum (Fin (- (3)))) 0%Z 10%Z = SNum (Fin (- (3)))
  /\ (isNaN NaN = true \/ isNaN 10%Z = true)
  /\ getStep Sample.parseNumber (SNum (Fin 1000)) NaN 10%Z = SNum (Fin 1000).
Proof.
  assert (H : (- (3) <= 0)%Q) by (apply Qle_bool_imp_le; reflexivity).
  split; [exact H|]. split.
  - exact (proj1 (getStep_never_discards Sample.parseNumber (- (3)) 0%Z 10%Z) H).
  - split; [left; reflexivity|].
    exact (proj2 (getStep_never_discards Sample.parseNumber 1000 NaN 10%Z)
             (or_introl eq_refl)).
Defined.

(** ** The pointer on the ellipse *)

Section PointerEllipse.

Variable getV2Angle : Vector2 -> num.
Variable radiansToDegrees : num -> num.
Variable convertRange : num -> num -> num -> num -> num -> num.
Variable ellipseMovement : Vector2 -> num -> num -> num -> Vector2.
Variable Math_PI : num.

Local Abbreviation position :=
  (getPointerPosition radiansToDegrees getV2Angle convertRange ellipseMovement Math_PI).
Local Abbreviation degreesOf := (inputDegrees getV2Angle radiansToDegrees Math_PI).
Local Abbreviation angleOf := (inputAngle getV2Angle Math_PI).


End PointerEllipse.

Lemma Sample_getV2Angle_finite (x y : Q) :
  isFinite (Sample.getV2Angle (Fin x, Fin y)) = true.
Proof. reflexivity. Qed.

Lemma Sample_convertRange_finite (v a b c d : Q) :
  ~ (a == b)%Q ->
  isFinite (Sample.convertRange (Fin v) (Fin a) (Fin b) (Fin c) (Fin d)) = true.
Proof.
  intros Hab. unfold Sample.convertRange.
  change (Fin v - Fin a) with (Fin (v + - a)).
  change (Fin d - Fin c) with (Fin (d + - c)).
  change (Fin b - Fin a) with (Fin (b + - a)).
  change (Fin (v + - a) * Fin (d + - c)) with (Fin ((v + - a) * (d + - c))).
  unfold div.
  destruct (Qeq_bool (b + - a) 0) eqn:Hz.
  - apply Qeq_bool_iff in Hz. exfalso. apply Hab. lra.
  - reflexivity.
Qed.

Lemma SampleGeometry_ellipseMovement_on_ellipse (ex ey t r1 r2 : Q) :
  ~ (r1 == 0)%Q -> ~ (r2 == 0)%Q ->
  onEllipse (Fin ex, Fin ey) (Fin r1, Fin r2)
    (SampleGeometry.ellipseMovement (Fin ex, Fin ey) (Fin t) (Fin r1) (Fin r2)).
Proof.
  intros H1 H2. unfold onEllipse, SampleGeometry.ellipseMovement.
  assert (Hden : ~ (1 + t * t == 0)%Q) by nra.
  field. repeat split; assumption.
Qed.

